(** * Shaggy Dog: the transformation pipeline and its web boundary

    A shallow embedding of [app.py], [models.py], [config.py] and
    [image_processing.py].

    - Text is [string]; a character is a code point below 256.
    - Image payloads are [bytes].
    - The database table [generated_image] is a finite map from the primary
      key to the row; every [db.session.commit()] of the source is one
      atomic update of the row it concerns.
    - Python exceptions are the [Raise] case of [outcome]; the payload is
      [str(e)].
    - Everything outside the repository (credential, image codec, the
      chat-completion and image-edit endpoints, the random source) is read
      from an explicit environment record. *)

From Stdlib Require Import ZArith QArith Qround Ascii String List Lia Bool.
From stdpp Require Import gmap strings pretty list fin_maps.

Local Open Scope string_scope.

(** ** Exceptions *)

Inductive outcome (A : Type) : Type :=
| Return (a : A)
| Raise (msg : string).
Arguments Return {A} a.
Arguments Raise {A} msg.

#[global] Instance outcome_ret : MRet outcome := @Return.
#[global] Instance outcome_bind : MBind outcome := fun A B k m =>
  match m with
  | Return a => k a
  | Raise e => Raise e
  end.

(** [try: body except Exception as e: handler(str(e))] *)
Definition try_except {A : Type} (body : outcome A) (handler : string -> outcome A)
  : outcome A :=
  match body with
  | Return a => Return a
  | Raise e => handler e
  end.

(** ** Text *)

Definition bytes := list Byte.byte.

(** [needle in hay] on Python strings. *)
Fixpoint str_in (needle hay : string) : bool :=
  String.prefix needle hay
  || match hay with
     | EmptyString => false
     | String _ rest => str_in needle rest
     end.

(** [str.lower()] on one code point below 256: A-Z, and the Latin-1
    capitals 192-222 except the multiplication sign 215. *)
Definition lower_char (c : ascii) : ascii :=
  let n := nat_of_ascii c in
  if ((65 <=? n) && (n <=? 90)
      || (192 <=? n) && (n <=? 222) && negb (n =? 215))%nat
  then ascii_of_nat (n + 32) else c.

Fixpoint lower (s : string) : string :=
  match s with
  | EmptyString => EmptyString
  | String c rest => String (lower_char c) (lower rest)
  end.

(** [str.isspace()] on one code point below 256; [\s] of [re] agrees. *)
Definition is_space (c : ascii) : bool :=
  let n := nat_of_ascii c in
  ((9 <=? n) && (n <=? 13) || (28 <=? n) && (n <=? 32)
   || (n =? 133) || (n =? 160))%nat.

(** [\w] of [re] (str pattern) on one code point below 256. *)
Definition is_word (c : ascii) : bool :=
  let n := nat_of_ascii c in
  ((48 <=? n) && (n <=? 57) || (65 <=? n) && (n <=? 90) || (n =? 95)
   || (97 <=? n) && (n <=? 122)
   || (n =? 170) || (n =? 178) || (n =? 179) || (n =? 181)
   || (n =? 185) || (n =? 186) || (188 <=? n) && (n <=? 190)
   || (192 <=? n) && (n <=? 214) || (216 <=? n) && (n <=? 246)
   || (248 <=? n))%nat.

Fixpoint lstrip (s : string) : string :=
  match s with
  | EmptyString => EmptyString
  | String c rest => if is_space c then lstrip rest else s
  end.

Fixpoint rstrip (s : string) : string :=
  match s with
  | EmptyString => EmptyString
  | String c rest =>
      match rstrip rest with
      | EmptyString => if is_space c then EmptyString else String c EmptyString
      | r => String c r
      end
  end.

(** [str.strip()] *)
Definition strip (s : string) : string := rstrip (lstrip s).

(** ** models.py: the [GeneratedImage] row *)

Record GeneratedImage := mkGeneratedImage {
  user_id : nat;
  original_image_data : bytes;
  breed_detected : option string;
  status : string;
  error_message : option string;
  image_1_data : option bytes;
  image_2_data : option bytes;
  final_dog_image_data : option bytes;
  batch_id : option string;
  pipeline_type : option string
}.

(** Column assignments, one per attribute the source writes. *)
Definition set_status (v : string) (r : GeneratedImage) : GeneratedImage :=
  mkGeneratedImage (user_id r) (original_image_data r) (breed_detected r) v
    (error_message r) (image_1_data r) (image_2_data r)
    (final_dog_image_data r) (batch_id r) (pipeline_type r).

Definition set_breed_detected (v : string) (r : GeneratedImage) : GeneratedImage :=
  mkGeneratedImage (user_id r) (original_image_data r) (Some v) (status r)
    (error_message r) (image_1_data r) (image_2_data r)
    (final_dog_image_data r) (batch_id r) (pipeline_type r).

Definition set_error_message (v : string) (r : GeneratedImage) : GeneratedImage :=
  mkGeneratedImage (user_id r) (original_image_data r) (breed_detected r)
    (status r) (Some v) (image_1_data r) (image_2_data r)
    (final_dog_image_data r) (batch_id r) (pipeline_type r).

Definition set_image_1_data (v : bytes) (r : GeneratedImage) : GeneratedImage :=
  mkGeneratedImage (user_id r) (original_image_data r) (breed_detected r)
    (status r) (error_message r) (Some v) (image_2_data r)
    (final_dog_image_data r) (batch_id r) (pipeline_type r).

Definition set_image_2_data (v : bytes) (r : GeneratedImage) : GeneratedImage :=
  mkGeneratedImage (user_id r) (original_image_data r) (breed_detected r)
    (status r) (error_message r) (image_1_data r) (Some v)
    (final_dog_image_data r) (batch_id r) (pipeline_type r).

Definition set_final_dog_image_data (v : bytes) (r : GeneratedImage)
  : GeneratedImage :=
  mkGeneratedImage (user_id r) (original_image_data r) (breed_detected r)
    (status r) (error_message r) (image_1_data r) (image_2_data r)
    (Some v) (batch_id r) (pipeline_type r).

(** The table, keyed by [id]. *)
Abbreviation Database := (gmap nat GeneratedImage).

(** SQLite's rowid for a new row: one more than the largest in use. *)
Definition next_id (db : Database) : nat :=
  S (max_list (fst <$> map_to_list db)).

(** ** app.py: [serve_image] *)

Inductive response : Type :=
| LoginRedirect
| NotFound
| DashboardRedirect (flash : string) (category : string)
| ImageResponse (data : bytes) (mimetype : string).

(** Python truthiness of an optional [bytes] column. *)
Definition truthy_bytes (d : option bytes) : bool :=
  match d with
  | None | Some [] => false
  | Some (_ :: _) => true
  end.

(** [current_user] is [None] for an anonymous visitor ([@login_required]). *)
Definition serve_image (db : Database) (current_user : option nat)
    (image_id : nat) (image_type : string) : response :=
  match current_user with
  | None => LoginRedirect
  | Some uid =>
      match db !! image_id with
      | None => NotFound
      | Some image_record =>
          if negb (user_id image_record =? uid)%nat then
            DashboardRedirect "Unauthorized access" "error"
          else
            let slot :=
              if String.eqb image_type "original" then
                Some (Some (original_image_data image_record))
              else if String.eqb image_type "transition1" then
                Some (image_1_data image_record)
              else if String.eqb image_type "transition2" then
                Some (image_2_data image_record)
              else if String.eqb image_type "final" then
                Some (final_dog_image_data image_record)
              else None in
            match slot with
            | None => DashboardRedirect "Invalid image type" "error"
            | Some image_data =>
                if truthy_bytes image_data
                then ImageResponse (default [] image_data) "image/png"
                else DashboardRedirect "Image not found" "error"
            end
      end
  end.

(** ** image_processing.py: the breed table *)

Record breed_info := mkBreed {
  features : list string;
  description : string
}.

(** [DOG_BREEDS], in the insertion order of the dict literal. *)
Definition DOG_BREEDS : list (string * breed_info) :=
  [ ("golden_retriever",
     mkBreed ["friendly"; "blonde"; "long_hair"; "medium_size"; "kind_eyes"]
             "friendly and gentle Golden Retriever");
    ("labrador",
     mkBreed ["friendly"; "short_hair"; "medium_size"; "athletic"]
             "friendly and energetic Labrador");
    ("german_shepherd",
     mkBreed ["serious"; "pointed_ears"; "medium_hair"; "intelligent"]
             "intelligent and loyal German Shepherd");
    ("poodle",
     mkBreed ["curly_hair"; "elegant"; "small_medium"; "refined"]
             "elegant and refined Poodle");
    ("bulldog",
     mkBreed ["strong"; "short_hair"; "sturdy"; "wrinkled"]
             "strong and sturdy Bulldog");
    ("beagle",
     mkBreed ["friendly"; "floppy_ears"; "medium_size"; "curious"]
             "friendly and curious Beagle");
    ("husky",
     mkBreed ["striking_eyes"; "thick_coat"; "medium_large"; "wolf_like"]
             "striking and wolf-like Siberian Husky");
    ("dachshund",
     mkBreed ["long_body"; "short_legs"; "small_medium"; "determined"]
             "determined and distinctive Dachshund") ].

(** [d.keys()] and [d[k]] / [k in d] on an insertion-ordered dict. *)
Definition dict_keys {V : Type} (d : list (string * V)) : list string :=
  fst <$> d.

Fixpoint dict_get {V : Type} (d : list (string * V)) (k : string) : option V :=
  match d with
  | [] => None
  | (k', v) :: rest => if String.eqb k k' then Some v else dict_get rest k
  end.

(** [breed_mapping] of [detect_dog_breed], in source order. *)
Definition breed_mapping : list (string * string) :=
  [ ("golden retriever", "golden_retriever");
    ("goldenretriever", "golden_retriever");
    ("golden_retriever", "golden_retriever");
    ("labrador", "labrador");
    ("labrador retriever", "labrador");
    ("labradorretriever", "labrador");
    ("german shepherd", "german_shepherd");
    ("germanshepherd", "german_shepherd");
    ("german_shepherd", "german_shepherd");
    ("alsatian", "german_shepherd");
    ("poodle", "poodle");
    ("bulldog", "bulldog");
    ("english bulldog", "bulldog");
    ("englishbulldog", "bulldog");
    ("beagle", "beagle");
    ("husky", "husky");
    ("siberian husky", "husky");
    ("siberianhusky", "husky");
    ("dachshund", "dachshund");
    ("wiener dog", "dachshund");
    ("wienerdog", "dachshund");
    ("sausage dog", "dachshund");
    ("sausagedog", "dachshund") ].

(** ** The fragment of [re] the classifier uses

    A pattern is a sequence of atoms; the only repetitions in the source
    patterns are greedy stars over a character class, and there is one
    capture group.  Matching is leftmost, greedy with backtracking, as in
    [re.search]. *)

Inductive cls : Type :=
| CChar (c : ascii)     (* a literal character *)
| CNot (c : ascii)      (* [^c] *)
| CSpace.               (* \s *)

Inductive atom : Type :=
| One (k : cls)
| Many (k : cls)        (* k* *)
| Bound                 (* \b *)
| GOpen                 (* ( *)
| GClose.               (* ) *)

Definition cls_match (ignorecase : bool) (k : cls) (x : ascii) : bool :=
  match k with
  | CChar c =>
      if ignorecase then Ascii.eqb (lower_char c) (lower_char x)
      else Ascii.eqb c x
  | CNot c =>
      negb (if ignorecase then Ascii.eqb (lower_char c) (lower_char x)
            else Ascii.eqb c x)
  | CSpace => is_space x
  end.

Definition word_before (prev : option ascii) : bool :=
  match prev with Some c => is_word c | None => false end.

Definition word_after (s : string) : bool :=
  match s with String c _ => is_word c | EmptyString => false end.

Definition at_boundary (prev : option ascii) (s : string) : bool :=
  xorb (word_before prev) (word_after s).

Definition record (on : bool) (acc : string) (x : ascii) : string :=
  if on then acc ++ String x EmptyString else acc.

(** [re_match ic r prev s on acc]: match [r] at the front of [s], where
    [prev] is the character before [s]; [acc] collects the text of the
    group while [on]. The result is the group's text. *)
Fixpoint re_match (ic : bool) (r : list atom)
  : option ascii -> string -> bool -> string -> option string :=
  match r with
  | [] => fun _ _ _ acc => Some acc
  | a :: r' =>
      let k := re_match ic r' in
      match a with
      | One c => fun _ s on acc =>
          match s with
          | String x s' =>
              if cls_match ic c x then k (Some x) s' on (record on acc x)
              else None
          | EmptyString => None
          end
      | Many c =>
          fix many (prev : option ascii) (s : string) (on : bool)
                   (acc : string) {struct s} : option string :=
            match s with
            | String x s' =>
                if cls_match ic c x then
                  match many (Some x) s' on (record on acc x) with
                  | Some g => Some g
                  | None => k prev s on acc
                  end
                else k prev s on acc
            | EmptyString => k prev s on acc
            end
      | Bound => fun prev s on acc =>
          if at_boundary prev s then k prev s on acc else None
      | GOpen => fun prev s _ _ => k prev s true EmptyString
      | GClose => fun prev s _ acc => k prev s false acc
      end
  end.

Fixpoint re_search_from (ic : bool) (r : list atom) (prev : option ascii)
    (s : string) : option string :=
  match re_match ic r prev s false EmptyString with
  | Some g => Some g
  | None =>
      match s with
      | String c s' => re_search_from ic r (Some c) s'
      | EmptyString => None
      end
  end.

(** [re.search(r, s)] ([ic] is [re.IGNORECASE]); the result is [group(1)],
    the empty string for a pattern without group. *)
Definition re_search (ic : bool) (r : list atom) (s : string) : option string :=
  re_search_from ic r None s.

(** [re.escape(k)] for the keys and variants above: letters, [_] and
    spaces, each matched literally. *)
Fixpoint re_escape (k : string) : list atom :=
  match k with
  | EmptyString => []
  | String c rest => One (CChar c) :: re_escape rest
  end.

(** [r'\b' + re.escape(k) + r'\b'] *)
Definition word_pattern (k : string) : list atom :=
  Bound :: re_escape k ++ [Bound].

Definition dquote : ascii := "034"%char.

(** The pattern of the JSON step: an opening brace, [[^}]*], the quoted
    word breed, [\s*:\s*], a quoted group [([^quote]+)], [[^}]*] and a
    closing brace. *)
Definition json_pattern : list atom :=
  [One (CChar "{"); Many (CNot "}"); One (CChar dquote)]
  ++ re_escape "breed"
  ++ [One (CChar dquote); Many CSpace; One (CChar ":"); Many CSpace;
      One (CChar dquote);
      GOpen; One (CNot dquote); Many (CNot dquote); GClose;
      One (CChar dquote); Many (CNot "}"); One (CChar "}")].

(** ** The outside world *)

(** What [Image.open] reports about a decoded picture. *)
Record pil_image := mkPil {
  mode : string;
  width : Z;
  height : Z
}.

(** A PNG file on disk: its pixel dimensions and [os.path.getsize]. *)
Record png_file := mkPng {
  png_width : Z;
  png_height : Z;
  png_nbytes : Z
}.

(** An alpha mask as PIL builds it: a square canvas filled with one alpha
    value, then ellipses painted in order, each given by its bounding box
    [(x0, y0, x1, y1)] and the alpha of its fill. *)
Record ellipse := mkEllipse {
  box : Z * Z * Z * Z;
  fill_alpha : Z
}.

Record mask := mkMask {
  mask_size : Z;
  canvas_alpha : Z;
  ellipses : list ellipse
}.

(** One entry of [response.data], with its printed forms. *)
Record data_item := mkItem {
  url : option string;
  b64_json : option string;
  item_repr : string;
  item_dir : string
}.

Record edit_response := mkResponse {
  data : list data_item;
  response_repr : string
}.

(** The arguments of [client.images.edit]; [req_model] is [None] where the
    source passes no model (the endpoint's default, DALL-E 2). *)
Record edit_request := mkRequest {
  req_model : option string;
  req_image : bytes;
  req_image_side : Z;
  req_mask : mask;
  req_prompt : string;
  req_size : Z
}.

Record Env := mkEnv {
  config_api_key : option string;   (* Config.OPENAI_API_KEY *)
  environ_api_key : option string;  (* os.environ.get('OPENAI_API_KEY') *)
  pil_open : bytes -> outcome pil_image;
  (* byte size of the PNG that [img.save(optimize=True)] writes for the
     picture decoded from these bytes, after its resize to side x side *)
  saved_png_nbytes : bytes -> Z -> Z;
  (* byte size after [img.resize((512, 512))] and a second save *)
  resized_png_nbytes : png_file -> Z;
  (* [client.chat.completions.create], by model and picture; the result is
     [response.choices[0].message.content], [None] where there is none *)
  chat_completions_create : string -> bytes -> outcome (option string);
  images_edit : edit_request -> outcome edit_response;
  (* [requests.get(url)] followed by [raise_for_status()] *)
  requests_get : string -> outcome bytes;
  b64decode : string -> outcome bytes;
  (* [random._randbelow] *)
  randbelow : nat -> nat
}.

(** Python truthiness of an optional string, and [a or b]. *)
Definition truthy_str (o : option string) : bool :=
  match o with
  | Some (String _ _) => true
  | _ => false
  end.

Definition py_or (a b : option string) : option string :=
  if truthy_str a then a else b.

Definition api_key (env : Env) : option string :=
  py_or (config_api_key env) (environ_api_key env).

Definition missing_key_message : string :=
  "OPENAI_API_KEY is not set. Please check your .env file.".

(** [random.choice(seq)] is [seq[self._randbelow(len(seq))]]. *)
Definition random_choice (env : Env) (seq : list string) : outcome string :=
  match seq !! randbelow env (length seq) with
  | Some x => Return x
  | None => Raise "list index out of range"
  end.

(** ** [detect_dog_breed] *)

Fixpoint replace_char (old new : ascii) (s : string) : string :=
  match s with
  | EmptyString => EmptyString
  | String c rest =>
      String (if Ascii.eqb c old then new else c) (replace_char old new rest)
  end.

Definition found {A : Type} (m : option A) : bool :=
  match m with Some _ => true | None => false end.

(** The JSON step. *)
Definition json_step (breed_response : string) : option string :=
  match re_search false json_pattern breed_response with
  | Some g =>
      let json_breed := lower (strip g) in
      if found (dict_get DOG_BREEDS json_breed) then Some json_breed
      else dict_get breed_mapping json_breed
  | None => None
  end.

(** The loop over [DOG_BREEDS.keys()]. *)
Fixpoint direct_key_step (keys : list string) (breed_response : string)
  : option string :=
  match keys with
  | [] => None
  | key :: rest =>
      if found (re_search false (word_pattern key) breed_response) then
        Some key
      else
        let key_with_spaces := replace_char "_" " " key in
        if found (re_search true (word_pattern key_with_spaces) breed_response)
        then Some key
        else direct_key_step rest breed_response
  end.

(** The loop over [breed_mapping.items()]. *)
Fixpoint mapping_step (items : list (string * string)) (breed_response : string)
  : option string :=
  match items with
  | [] => None
  | (variant, key) :: rest =>
      if found (re_search true (word_pattern variant) breed_response) then
        Some key
      else mapping_step rest breed_response
  end.

Definition or_else (a : option string) (b : option string) : option string :=
  match a with Some _ => a | None => b end.

(** [selected_breed] before the fallbacks. *)
Definition match_breed (breed_response : string) : option string :=
  or_else (json_step breed_response)
    (or_else (direct_key_step (dict_keys DOG_BREEDS) breed_response)
             (mapping_step breed_mapping breed_response)).

Definition apostrophe : string := String "039"%char EmptyString.

(** The test for a refusal. *)
Definition refusal_words (breed_response : string) : bool :=
  str_in "sorry" (lower breed_response)
  || str_in ("can" ++ apostrophe ++ "t help") (lower breed_response).

(** From the raw completion text to [selected_breed]. *)
Definition select_breed (env : Env) (content : string) : outcome string :=
  let raw_response := strip content in
  let breed_response := lower raw_response in
  match match_breed breed_response with
  | Some selected_breed => Return selected_breed
  | None =>
      if refusal_words breed_response
      then random_choice env (dict_keys DOG_BREEDS)
      else Return "golden_retriever"
  end.

Definition breed_description (key : string) : outcome string :=
  match dict_get DOG_BREEDS key with
  | Some info => Return (description info)
  | None => Raise key   (* KeyError *)
  end.

(** The body of the outer [try]. *)
Definition detect_dog_breed_body (env : Env) (image : bytes)
  : outcome (string * string) :=
  if negb (truthy_str (api_key env)) then Raise missing_key_message
  else
    _ ← pil_open env image;
    response ← try_except (chat_completions_create env "gpt-4o-mini" image)
                 (fun mini_error => chat_completions_create env "gpt-4o" image);
    content ← match response with
               | Some c => Return c
               | None => Raise "'NoneType' object has no attribute 'strip'"
               end;
    selected_breed ← select_breed env content;
    d ← breed_description selected_breed;
    Return (selected_breed, d).

Definition detect_dog_breed (env : Env) (image : bytes)
  : outcome (string * string) :=
  try_except (detect_dog_breed_body env image)
    (fun e => d ← breed_description "golden_retriever";
              Return ("golden_retriever", d)).

(** ** Binary64 arithmetic of the mask geometry

    The source computes [int(target_size * 0.5)] and the like: an [int]
    times a float literal, truncated.  A double is kept as
    [fnum / 2 ^ fexp]; the product of an integer below [2^53] in magnitude
    with a literal is exact before rounding, and its magnitude is then
    rounded to 53 significant bits, ties to even; the sign is kept. *)

Record float64 := mkFloat {
  fnum : Z;
  fexp : Z
}.

Definition lit_0_5 : float64 := mkFloat 1 1.
Definition lit_0_2 : float64 := mkFloat 3602879701896397 54.
Definition lit_0_65 : float64 := mkFloat 5854679515581645 53.
Definition lit_0_05 : float64 := mkFloat 3602879701896397 56.
Definition lit_0_75 : float64 := mkFloat 3 2.
Definition lit_0_60 : float64 := mkFloat 5404319552844595 53.

Local Open Scope Z_scope.

(** A magnitude [p] rounded to 53 significant bits: [(m, sh)] stands for
    [m * 2 ^ sh]. *)
Definition round53 (p : Z) : Z * Z :=
  let b := Z.log2 p + 1 in
  if b <=? 53 then (p, 0)
  else
    let sh := b - 53 in
    let q := p / 2 ^ sh in
    let r := p mod 2 ^ sh in
    let half := 2 ^ (sh - 1) in
    let m := if r <? half then q
             else if half <? r then q + 1
             else if Z.even q then q else q + 1 in
    (m, sh).

(** [n * c] for an [int] [n] below [2^53] in magnitude and a float [c]:
    the magnitude of the exact product is rounded, its sign kept. *)
Definition float_mul_int (n : Z) (c : float64) : float64 :=
  let p := n * fnum c in
  let '(m, sh) := round53 (Z.abs p) in
  mkFloat (Z.sgn p * m) (fexp c - sh).

(** [int(x)]: the fraction is dropped, toward zero. *)
Definition int_of_float (x : float64) : Z :=
  if 0 <=? fexp x then Z.quot (fnum x) (2 ^ fexp x)
  else fnum x * 2 ^ (- fexp x).

Definition int_mul (n : Z) (c : float64) : Z := int_of_float (float_mul_int n c).

(** ** The mask generators

    A generator is given by the calls it makes to PIL: the side and alpha
    of the canvas and the ellipses in drawing order.  PIL refuses a
    negative side and a box with a corner past its opposite, so the source
    returns the mask where these calls are accepted and raises
    otherwise. *)

Definition transparent : Z := 0.
Definition opaque : Z := 255.

Definition create_face_mask (target_size : Z)
    (face_region_size face_top_offset : option Z) : mask :=
  let face_region_size :=
    match face_region_size with
    | None => int_mul target_size lit_0_5
    | Some v => v
    end in
  let face_top_offset :=
    match face_top_offset with
    | None => int_mul target_size lit_0_2
    | Some v => v
    end in
  let face_left := (target_size - face_region_size) / 2 in
  let face_top := face_top_offset in
  let face_right := face_left + face_region_size in
  let face_bottom := face_top + face_region_size in
  mkMask target_size opaque
    [mkEllipse (face_left, face_top, face_right, face_bottom) transparent].

Definition create_safe_radius_mask (target_size : Z)
    (face_region_size face_top_offset : option Z) (safe_radius_percent : float64)
  : mask :=
  let face_region_size :=
    match face_region_size with
    | None => int_mul target_size lit_0_5
    | Some v => v
    end in
  let face_top_offset :=
    match face_top_offset with
    | None => int_mul target_size lit_0_2
    | Some v => v
    end in
  let face_left := (target_size - face_region_size) / 2 in
  let face_top := face_top_offset in
  let face_right := face_left + face_region_size in
  let face_bottom := face_top + face_region_size in
  let border_expansion := int_mul face_region_size safe_radius_percent in
  let border_left := face_left - border_expansion in
  let border_top := face_top - border_expansion in
  let border_right := face_right + border_expansion in
  let border_bottom := face_bottom + border_expansion in
  mkMask target_size opaque
    [mkEllipse (border_left, border_top, border_right, border_bottom) transparent;
     mkEllipse (face_left, face_top, face_right, face_bottom) opaque].

Definition create_full_head_mask (target_size : Z)
    (head_region_size head_top_offset : option Z) : mask :=
  let head_region_size :=
    match head_region_size with
    | None => int_mul target_size lit_0_65
    | Some v => v
    end in
  let head_top_offset :=
    match head_top_offset with
    | None => int_mul target_size lit_0_05
    | Some v => v
    end in
  let head_left := (target_size - head_region_size) / 2 in
  let head_top := head_top_offset in
  let head_right := head_left + head_region_size in
  let head_bottom := head_top + head_region_size in
  mkMask target_size opaque
    [mkEllipse (head_left, head_top, head_right, head_bottom) transparent].

Definition create_head_and_body_mask (target_size : Z)
    (head_region_size head_top_offset : option Z) : mask :=
  let head_region_size :=
    match head_region_size with
    | None => int_mul target_size lit_0_65
    | Some v => v
    end in
  let head_top_offset :=
    match head_top_offset with
    | None => int_mul target_size lit_0_05
    | Some v => v
    end in
  let head_left := (target_size - head_region_size) / 2 in
  let head_top := head_top_offset in
  let head_right := head_left + head_region_size in
  let head_bottom := head_top + head_region_size in
  let body_width := int_mul target_size lit_0_75 in
  let body_left := (target_size - body_width) / 2 in
  let body_top := head_bottom - int_mul head_region_size lit_0_2 in
  let body_bottom := int_mul target_size lit_0_75 in
  let body_right := body_left + body_width in
  mkMask target_size opaque
    [mkEllipse (head_left, head_top, head_right, head_bottom) transparent;
     mkEllipse (body_left, body_top, body_right, body_bottom) transparent].

(** *** What a mask means, pixel by pixel

    [covers b x y] says that [ImageDraw.ellipse] with bounding box [b]
    paints pixel [(x, y)]; PIL's rasteriser is a parameter.  Later
    ellipses paint over earlier ones. *)

Definition in_box (b : Z * Z * Z * Z) (x y : Z) : Prop :=
  let '(x0, y0, x1, y1) := b in x0 <= x <= x1 /\ y0 <= y <= y1.

Definition alpha_at (covers : Z * Z * Z * Z -> Z -> Z -> bool) (m : mask)
    (x y : Z) : Z :=
  fold_left (fun a e => if covers (box e) x y then fill_alpha e else a)
            (ellipses m) (canvas_alpha m).

(** The ellipse inscribed in the box, tested at pixel centres. *)
Definition inscribed_ellipse (b : Z * Z * Z * Z) (x y : Z) : bool :=
  let '(x0, y0, x1, y1) := b in
  let w := x1 - x0 in
  let h := y1 - y0 in
  (x0 <=? x) && (x <=? x1) && (y0 <=? y) && (y <=? y1)
  && (h * h * (2 * x - x0 - x1) * (2 * x - x0 - x1)
      + w * w * (2 * y - y0 - y1) * (2 * y - y0 - y1) <=? w * w * h * h).

(** ** The size normalizer

    [file] is a PNG that decodes, as the file every executor hands over
    is: it has just been written by [img.save].  The function returns the
    file as it leaves it together with the size it reports. *)

Definition ensure_png_under_4mb (env : Env) (file : png_file) (max_size_mb : Q)
  : png_file * Z :=
  let max_size_bytes := (max_size_mb * 1024 * 1024)%Q in
  let current_size := png_nbytes file in
  if Qle_bool (inject_Z current_size) max_size_bytes then
    (file, 1024)
  else
    (mkPng 512 512 (resized_png_nbytes env file), 512).

Definition default_max_size_mb : Q := 3.5%Q.

(** ** The stage executors *)

Local Open Scope string_scope.

(** [str.replace(old, new)] for a non-empty [old]; [skip] counts the
    characters of a match still to be dropped. *)
Fixpoint str_replace_from (old new : string) (skip : nat) (s : string) : string :=
  match s with
  | EmptyString => EmptyString
  | String c rest =>
      match skip with
      | S k => str_replace_from old new k rest
      | O =>
          if String.prefix old s
          then new ++ str_replace_from old new (String.length old - 1) rest
          else String c (str_replace_from old new 0 rest)
      end
  end.

Definition str_replace (old new s : string) : string :=
  str_replace_from old new 0 s.

(** The cased code points below 256: the letters A-Z and a-z, the
    ordinal indicators 170 and 186, the micro sign 181, and the Latin-1
    letters 192-255 except the signs 215 and 247. *)
Definition is_letter (c : ascii) : bool :=
  let n := nat_of_ascii c in
  ((65 <=? n) && (n <=? 90) || (97 <=? n) && (n <=? 122)
   || (n =? 170) || (n =? 181) || (n =? 186)
   || (192 <=? n) && negb (n =? 215) && negb (n =? 247))%nat.

(** The title case of one code point below 256.  The title cases of the
    micro sign 181, of the sharp s 223 and of 255 lie outside these code
    points (one is two letters long); the three are kept as they are. *)
Definition upper_char (c : ascii) : ascii :=
  let n := nat_of_ascii c in
  if ((97 <=? n) && (n <=? 122)
      || (224 <=? n) && (n <=? 254) && negb (n =? 247))%nat
  then ascii_of_nat (n - 32) else c.

(** [str.title()] on code points below 256: a cased character is put in
    title case at the start of a run of cased characters and in lower case
    inside one. *)
Fixpoint title_from (previous_is_cased : bool) (s : string) : string :=
  match s with
  | EmptyString => EmptyString
  | String c rest =>
      if is_letter c then
        String (if previous_is_cased then lower_char c else upper_char c)
               (title_from true rest)
      else String c (title_from false rest)
  end.

Definition title (s : string) : string := title_from false s.

(** Reading the picture out of [response.data[0]]: a URL is fetched, an
    inline payload decoded. *)
Definition read_edit_response (env : Env) (response : edit_response)
  : outcome bytes :=
  match data response with
  | [] =>
      Raise ("API response missing or empty 'data' attribute. Response: "
             ++ response_repr response)
  | data_item :: _ =>
      match url data_item, b64_json data_item with
      | Some (String c u), _ => requests_get env (String c u)
      | _, Some (String c b) => b64decode env (String c b)
      | _, _ =>
          Raise ("API response data[0] has neither 'url' nor 'b64_json'. "
                 ++ "Data item: " ++ item_repr data_item
                 ++ ", Attributes: " ++ item_dir data_item)
      end
  end.

(** [response.data[0].url] handed to [requests.get], as DALL-E's path
    does without looking at it first. *)
Definition read_dalle_response (env : Env) (response : edit_response)
  : outcome bytes :=
  match data response with
  | [] => Raise "list index out of range"
  | data_item :: _ =>
      match url data_item with
      | Some u => requests_get env u
      | None =>
          Raise ("Invalid URL 'None': No scheme supplied. "
                 ++ "Perhaps you meant https://None?")
      end
  end.

(** The picture is squared, resized to [target_size], saved, and then
    checked by the size normalizer; the pair is the file sent and the
    size the masks and the request use. *)
Definition save_for_api (env : Env) (source : bytes) (target_size : Z)
  : png_file * Z :=
  let saved := mkPng target_size target_size
                 (saved_png_nbytes env source target_size) in
  ensure_png_under_4mb env saved default_max_size_mb.

(** In the executors [size] is the side the size string starts with
    ([int(size.split('x')[0])], 1024 for the default), and the temporary
    files are the bytes they hold. *)
Definition edit_image_with_dalle (env : Env) (original_image : bytes)
    (edit_prompt : string) (size : Z) (mask_type : string)
    (face_mask : option mask) : outcome bytes :=
  if negb (truthy_str (api_key env)) then Raise missing_key_message
  else
    img ← pil_open env original_image;
    let target_size := size in
    try_except
      (let '(file, actual_size) := save_for_api env original_image target_size in
       let api_size := actual_size in
       let target_size :=
         if negb (actual_size =? target_size)%Z then actual_size
         else target_size in
       let face_mask :=
         match face_mask with
         | None => create_face_mask target_size None None
         | Some m => m
         end in
       let mask :=
         if String.eqb mask_type "safe_radius" then
           create_safe_radius_mask target_size None None lit_0_60
         else if String.eqb mask_type "inverted" then
           let face_region_size := int_mul target_size lit_0_5 in
           let face_left := ((target_size - face_region_size) / 2)%Z in
           let face_top := int_mul target_size lit_0_2 in
           let face_right := (face_left + face_region_size)%Z in
           let face_bottom := (face_top + face_region_size)%Z in
           mkMask target_size transparent
             [mkEllipse (face_left, face_top, face_right, face_bottom) opaque]
         else face_mask in
       response ← images_edit env
         (mkRequest None original_image (png_width file) mask edit_prompt
                    api_size);
       read_dalle_response env response)
      (fun error_msg =>
         if str_in "edit" (lower error_msg) || str_in "not found" (lower error_msg)
         then Raise ("Image editing API may not be available. "
                     ++ "DALL-E 3 doesn't support image editing. "
                     ++ "Original error: " ++ error_msg)
         else Raise error_msg).

Definition edit_image_with_gpt_image1 (env : Env) (original_image : bytes)
    (edit_prompt : string) (size : Z) (mask_type : string)
    (face_mask : option mask) : outcome bytes :=
  if negb (truthy_str (api_key env)) then Raise missing_key_message
  else
    img ← pil_open env original_image;
    let target_size := size in
    let '(file, actual_size) := save_for_api env original_image target_size in
    let api_size := actual_size in
    let target_size :=
      if negb (actual_size =? target_size)%Z then actual_size
      else target_size in
    let face_mask :=
      match face_mask with
      | None => create_face_mask target_size None None
      | Some m => m
      end in
    let mask :=
      if String.eqb mask_type "safe_radius" then
        create_safe_radius_mask target_size None None lit_0_60
      else face_mask in
    response ← images_edit env
      (mkRequest (Some "gpt-image-1") original_image (png_width file) mask
                 edit_prompt api_size);
    read_edit_response env response.

Definition enhance_only_prompt (breed_name_display : string) : string :=
  "Enhance the existing anthropomorphic human-dog hybrid transformation. Improve the fur texture, details, and quality of the "
  ++ breed_name_display
  ++ " dog features (ears and snout) on the head while keeping the exact same structure, composition, and background. Enhance the realism and quality of the dog fur and textures on the head without changing the overall appearance or layout. Keep the background exactly the same.".

Definition body_fur_prompt (breed_name_display : string) : string :=
  "Enhance the existing anthropomorphic human-dog hybrid transformation. Improve the fur texture, details, and quality of the "
  ++ breed_name_display
  ++ " dog features (ears and snout) on the head. Additionally, add fluffy, fuzzy, furry "
  ++ breed_name_display
  ++ " dog fur to the body, torso, and shoulders - make the body area covered in soft, shaggy dog fur while preserving the clothing underneath. Enhance the realism and quality of the dog fur and textures on both the head and body. Keep the exact same structure, composition, and background. Keep the background exactly the same.".

(** Stage 3 of the dalle_gpt pipeline: head only. *)
Definition finalize_with_gpt_image1_enhance_only (env : Env)
    (stage2_image : bytes) (breed_name_display : string)
    (breed_features : list string) : outcome bytes :=
  if negb (truthy_str (api_key env)) then Raise missing_key_message
  else
    let prompt := enhance_only_prompt breed_name_display in
    img ← pil_open env stage2_image;
    let target_size := 1024%Z in
    let '(file, actual_size) := save_for_api env stage2_image target_size in
    let api_size := actual_size in
    let target_size :=
      if negb (actual_size =? target_size)%Z then actual_size
      else target_size in
    let mask := create_full_head_mask target_size None None in
    response ← images_edit env
      (mkRequest (Some "gpt-image-1") stage2_image (png_width file) mask
                 prompt api_size);
    read_edit_response env response.

(** Stage 3 of the gpt_only pipeline: head and body. *)
Definition finalize_with_gpt_image1 (env : Env) (stage2_image : bytes)
    (breed_name_display : string) (breed_features : list string)
  : outcome bytes :=
  if negb (truthy_str (api_key env)) then Raise missing_key_message
  else
    let prompt := body_fur_prompt breed_name_display in
    img ← pil_open env stage2_image;
    let target_size := 1024%Z in
    let '(file, actual_size) := save_for_api env stage2_image target_size in
    let api_size := actual_size in
    let target_size :=
      if negb (actual_size =? target_size)%Z then actual_size
      else target_size in
    let mask := create_head_and_body_mask target_size None None in
    response ← images_edit env
      (mkRequest (Some "gpt-image-1") stage2_image (png_width file) mask
                 prompt api_size);
    read_edit_response env response.

(** ** [generate_transformation_images] *)

Record transformation_images := mkImages {
  image_1 : bytes;
  image_2 : bytes;
  final : bytes
}.

Definition list_in (x : string) (l : list string) : bool :=
  existsb (String.eqb x) l.

Definition ears_prompt (ear_type breed_name_display : string) : string :=
  "Add two large, authentic " ++ ear_type ++ breed_name_display
  ++ " dog ears with dog ear texture and fur, one on each side of the top of the head. The ears should be clearly visible and prominent, positioned symmetrically on opposite sides at the top of the head, outside the face area. The ears must have dog ear texture - fur-covered, canine appearance, not human ear texture. Make the ears realistic and breed-appropriate with proper dog ear material and texture. CRITICAL: DO NOT change or edit the face itself - the face must remain COMPLETELY UNCHANGED. Keep all facial features exactly as they are - do not modify the eyes, nose, mouth, skin, or any part of the face. The face should look identical to the original. Do not change the background - keep the background exactly as it is. Do not add any other dogs, dog faces, or dog heads into the image. Only add the two dog ears at the top sides of the head. Transform the person by adding dog ears, do not add a separate dog next to the person.".

Definition snout_prompt (breed_name_display : string) : string :=
  "Add a " ++ breed_name_display
  ++ " dog snout/nose to the face area. Only modify the nose/snout region within the face. Do not change the background - keep the background exactly as it is. Keep the eyes, facial structure, and all features outside the face exactly as they are. Keep ALL previous edits: the dog ears from the previous stage must remain visible and unchanged.".

(** [try: body except Exception as e: raise ValueError(label + str(e))] *)
Definition stage (label : string) (body : outcome bytes) : outcome bytes :=
  try_except body (fun error_msg => Raise (label ++ error_msg)).

(** The breed-dependent pieces of the prompts.  [breed_traits] of the
    source is computed and never read, and is left out. *)
Definition breed_features_of (breed_name : option string) : list string :=
  match breed_name with
  | Some (String c n) =>
      match dict_get DOG_BREEDS (String c n) with
      | Some info => features info
      | None => []
      end
  | _ => []
  end.

Definition breed_name_display_of (breed_description : string)
    (breed_name : option string) : string :=
  match breed_name with
  | Some (String c n) => title (replace_char "_" " " (String c n))
  | _ => strip (str_replace "dog" "" breed_description)
  end.

Definition ear_type_of (breed_features : list string) : string :=
  let ear_description :=
    if list_in "pointed_ears" breed_features then "pointed"
    else if list_in "floppy_ears" breed_features then "floppy"
    else "" in
  match ear_description with
  | EmptyString => ""
  | _ => ear_description ++ " "
  end.

(** The edit call of each stage: the [if pipeline_type == ...] blocks. *)
Definition stage_1_edit (env : Env) (pipeline_type : string)
    (original_image : bytes) (prompt_1 : string) (face_mask : mask)
  : outcome bytes :=
  if String.eqb pipeline_type "dalle_gpt" then
    edit_image_with_dalle env original_image prompt_1 1024 "safe_radius"
      (Some face_mask)
  else
    edit_image_with_gpt_image1 env original_image prompt_1 1024 "safe_radius"
      (Some face_mask).

Definition stage_2_edit (env : Env) (pipeline_type : string)
    (img_1_data : bytes) (prompt_2 : string) (face_mask : mask)
  : outcome bytes :=
  if String.eqb pipeline_type "dalle_gpt" then
    edit_image_with_dalle env img_1_data prompt_2 1024 "face" (Some face_mask)
  else
    edit_image_with_gpt_image1 env img_1_data prompt_2 1024 "face"
      (Some face_mask).

Definition stage_3_edit (env : Env) (pipeline_type : string)
    (img_2_data : bytes) (breed_name_display : string)
    (breed_features : list string) : outcome bytes :=
  if String.eqb pipeline_type "dalle_gpt" then
    finalize_with_gpt_image1_enhance_only env img_2_data breed_name_display
      breed_features
  else
    finalize_with_gpt_image1 env img_2_data breed_name_display breed_features.

(** The temporary files that carry one stage's bytes to the next are
    passed as the bytes themselves. *)
Definition generate_transformation_images (env : Env) (original_image : bytes)
    (breed_description : string) (breed_name : option string)
    (pipeline_type : string) : outcome transformation_images :=
  let breed_features := breed_features_of breed_name in
  let breed_name_display :=
    breed_name_display_of breed_description breed_name in
  original_img ← pil_open env original_image;
  let face_mask := create_face_mask 1024 None None in
  let prompt_1 := ears_prompt (ear_type_of breed_features) breed_name_display in
  let prompt_2 := snout_prompt breed_name_display in
  img_1_data ← stage "Stage 1 Error (adding ears): "
    (stage_1_edit env pipeline_type original_image prompt_1 face_mask);
  img_2_data ← stage "Stage 2 Error (adding snout): "
    (stage_2_edit env pipeline_type img_1_data prompt_2 face_mask);
  img_final_data ← stage "Stage 3 Error (finalizing with gpt-image-1): "
    (stage_3_edit env pipeline_type img_2_data breed_name_display
       breed_features);
  Return (mkImages img_1_data img_2_data img_final_data).

(** ** app.py: [process_image_generation] *)

(** One [db.session.commit()]: the columns assigned since the last one are
    written to the row [image_id]. *)
Definition commit (image_id : nat) (assign : GeneratedImage -> GeneratedImage)
    (db : Database) : Database :=
  alter assign image_id db.

(** The [except] branch: the row is read again and marked. *)
Definition mark_error (error_msg : string) (r : GeneratedImage) : GeneratedImage :=
  set_error_message ("Error: " ++ error_msg) (set_status "error" r).

(** The commits of one run, in order, for the row read at the start. *)
Definition job_commits (env : Env) (image_record : GeneratedImage)
    (pipeline_type : string) : list (GeneratedImage -> GeneratedImage) :=
  let original := original_image_data image_record in
  set_status "detecting" ::
  match detect_dog_breed env original with
  | Raise error_msg => [mark_error error_msg]
  | Return (breed, breed_description) =>
      (fun r => set_status "generating_1" (set_breed_detected breed r)) ::
      match generate_transformation_images env original breed_description
              (Some breed) pipeline_type with
      | Raise error_msg => [mark_error error_msg]
      | Return generated_images =>
          [ (fun r => set_status "generating_2"
                        (set_image_1_data (image_1 generated_images) r));
            (fun r => set_status "generating_final"
                        (set_image_2_data (image_2 generated_images) r));
            (fun r => set_status "completed"
                        (set_final_dog_image_data (final generated_images) r)) ]
      end
  end.

Definition process_image_generation (env : Env) (image_id : nat)
    (pipeline_type : string) (db : Database) : Database :=
  match db !! image_id with
  | None => db
  | Some image_record =>
      let original := original_image_data image_record in
      let db := commit image_id (set_status "detecting") db in
      match detect_dog_breed env original with
      | Raise error_msg => commit image_id (mark_error error_msg) db
      | Return (breed, breed_description) =>
          let db := commit image_id
                      (fun r => set_status "generating_1"
                                  (set_breed_detected breed r)) db in
          match generate_transformation_images env original breed_description
                  (Some breed) pipeline_type with
          | Raise error_msg => commit image_id (mark_error error_msg) db
          | Return generated_images =>
              let db := commit image_id
                          (fun r => set_status "generating_2"
                             (set_image_1_data (image_1 generated_images) r))
                          db in
              let db := commit image_id
                          (fun r => set_status "generating_final"
                             (set_image_2_data (image_2 generated_images) r))
                          db in
              commit image_id
                (fun r => set_status "completed"
                   (set_final_dog_image_data (final generated_images) r))
                db
          end
      end
  end.

(** ** app.py: [upload] *)

(** [Config.ALLOWED_EXTENSIONS] *)
Definition ALLOWED_EXTENSIONS : list string :=
  ["png"; "jpg"; "jpeg"; "gif"; "webp"].

(** [filename.rsplit('.', 1)[1]]: what follows the last dot. *)
Fixpoint after_last_dot (s : string) : option string :=
  match s with
  | EmptyString => None
  | String c rest =>
      match after_last_dot rest with
      | Some ext => Some ext
      | None => if Ascii.eqb c "." then Some rest else None
      end
  end.

Definition allowed_file (filename : string) : bool :=
  match after_last_dot filename with
  | Some ext => list_in (lower ext) ALLOWED_EXTENSIONS
  | None => false
  end.

(** The SQLAlchemy session: rows added and not yet committed, the
    committed table, and for each commit so far the ids it inserted. *)
Record session := mkSession {
  committed : Database;
  pending : list GeneratedImage;
  transactions : list (list nat)
}.

Definition session_add (row : GeneratedImage) (s : session) : session :=
  mkSession (committed s) (pending s ++ [row]) (transactions s).

Fixpoint flush (rows : list GeneratedImage) (db : Database)
  : Database * list nat :=
  match rows with
  | [] => (db, [])
  | row :: rest =>
      let new_id := next_id db in
      let '(db', ids) := flush rest (<[new_id := row]> db) in
      (db', new_id :: ids)
  end.

Definition session_commit (s : session) : session :=
  let '(db, ids) := flush (pending s) (committed s) in
  mkSession db [] (transactions s ++ [ids]).

(** The [id] attribute, after the commit, of the [k]-th row it inserted. *)
Definition inserted_id (s : session) (k : nat) : nat :=
  default 0%nat (last (transactions s) ≫= (.!! k)).

Record upload_request := mkUpload {
  method : string;
  (* [request.files['file']] as (filename, content) *)
  file : option (string * bytes);
  (* [request.form.get('pipeline_type')] *)
  form_pipeline_type : option string
}.

Inductive upload_reply : Type :=
| ToLogin
| ToRequestUrl
| ToDashboard
| UploadPage.

Record upload_result := mkResult {
  reply : upload_reply;
  flashed : option (string * string);
  after : session;
  (* the threads started: [process_image_generation] with these arguments *)
  threads : list (nat * string)
}.

Definition new_row (uid : nat) (file_data : bytes) (batch : option string)
    (pipeline : string) : GeneratedImage :=
  mkGeneratedImage uid file_data None "uploaded" None None None None
    batch (Some pipeline).

(** [timestamp] is [datetime.now().strftime('%Y%m%d_%H%M%S')]; the request
    starts with a session of its own over the committed table [db]. *)
Definition upload (db : Database) (current_user : option nat)
    (request : upload_request) (timestamp : string) : upload_result :=
  let s := mkSession db [] [] in
  match current_user with
  | None => mkResult ToLogin None s []
  | Some uid =>
      if negb (String.eqb (method request) "POST") then
        mkResult UploadPage None s []
      else
        match file request with
        | None => mkResult ToRequestUrl (Some ("No file selected", "error")) s []
        | Some (EmptyString, _) =>
            mkResult ToRequestUrl (Some ("No file selected", "error")) s []
        | Some (filename, file_data) =>
            if allowed_file filename then
              let pipeline_type :=
                default "gpt_only" (form_pipeline_type request) in
              if String.eqb pipeline_type "both" then
                let batch_id := pretty uid ++ "_" ++ timestamp in
                let new_image_1 :=
                  new_row uid file_data (Some batch_id) "dalle_gpt" in
                let s := session_add new_image_1 s in
                let new_image_2 :=
                  new_row uid file_data (Some batch_id) "gpt_only" in
                let s := session_add new_image_2 s in
                let s := session_commit s in
                mkResult ToDashboard
                  (Some ("Image uploaded! Both pipelines running simultaneously.",
                         "success"))
                  s
                  [(inserted_id s 0, "dalle_gpt"); (inserted_id s 1, "gpt_only")]
              else
                let new_image := new_row uid file_data None pipeline_type in
                let s := session_add new_image s in
                let s := session_commit s in
                mkResult ToDashboard
                  (Some ("Image uploaded! Generation in progress.", "success"))
                  s [(inserted_id s 0, pipeline_type)]
            else
              mkResult UploadPage
                (Some ("Invalid file type. Please upload an image (png, jpg, jpeg, gif, webp)",
                       "error"))
                s []
        end
  end.

(** Threads interleave at commits: a schedule is a list of commits, each
    tagged with the row it writes. *)
Definition run_commits
    (schedule : list (nat * (GeneratedImage -> GeneratedImage)))
    (db : Database) : Database :=
  foldl (fun db c => commit (fst c) (snd c) db) db schedule.

(** The commits one thread will issue, started on table [db]. *)
Definition thread_commits (env : Env) (image_id : nat) (pipeline_type : string)
    (db : Database) : list (nat * (GeneratedImage -> GeneratedImage)) :=
  match db !! image_id with
  | None => []
  | Some image_record =>
      (fun c => (image_id, c)) <$> job_commits env image_record pipeline_type
  end.

Inductive interleaving {A : Type} : list A -> list A -> list A -> Prop :=
| interleaving_nil : interleaving [] [] []
| interleaving_left a l1 l2 l :
    interleaving l1 l2 l -> interleaving (a :: l1) l2 (a :: l)
| interleaving_right a l1 l2 l :
    interleaving l1 l2 l -> interleaving l1 (a :: l2) (a :: l).


(** ** Vocabulary of the statements *)

Local Open Scope string_scope.

(** What the classifier falls back to. *)
Definition golden_default : string * string :=
  ("golden_retriever", "friendly and gentle Golden Retriever").

Definition quoted (s : string) : string :=
  String dquote s ++ String dquote EmptyString.

(** A JSON object with the one field breed, as text. *)
Definition breed_object (value : string) : string :=
  "{" ++ quoted "breed" ++ ": " ++ quoted value ++ "}".

(** The completion with this content reaches the parser: the credential
    is set, the picture decodes, and the first model answers, or fails and
    the second answers. *)
Definition responds (env : Env) (image : bytes) (content : string) : Prop :=
  truthy_str (api_key env) = true
  /\ (exists img, pil_open env image = Return img)
  /\ (chat_completions_create env "gpt-4o-mini" image = Return (Some content)
      \/ (exists e, chat_completions_create env "gpt-4o-mini" image = Raise e)
         /\ chat_completions_create env "gpt-4o" image = Return (Some content)).



(** The character before the text that follows [pre]. *)
Fixpoint last_before (prev : option ascii) (pre : string) : option ascii :=
  match pre with
  | EmptyString => prev
  | String c rest => last_before (Some c) rest
  end.


(** The commits of a schedule that write row [j], and their effect on it. *)
Definition row_commits (j : nat)
    (schedule : list (nat * (GeneratedImage -> GeneratedImage)))
  : list (GeneratedImage -> GeneratedImage) :=
  snd <$> filter (fun c => fst c = j) schedule.

Definition apply_commits (cs : list (GeneratedImage -> GeneratedImage))
    (r : GeneratedImage) : GeneratedImage :=
  foldl (fun r c => c r) r cs.

Fixpoint bytes_eqb (a b : bytes) : bool :=
  match a, b with
  | [], [] => true
  | x :: a', y :: b' => Byte.eqb x y && bytes_eqb a' b'
  | _, _ => false
  end.

(** The labels the orchestrator puts before a stage's error. *)
Definition stage_1_label : string := "Stage 1 Error (adding ears): ".
Definition stage_3_label : string :=
  "Stage 3 Error (finalizing with gpt-image-1): ".

(** * Further parts of the application *)
(** ** models.py: [get_progress_percent] *)

Local Open Scope string_scope.

(** [status_map]; the percentages are kept as rationals. *)
Definition status_map : list (string * Q) :=
  [ ("uploaded", 0%Q);
    ("detecting", 12.5%Q);
    ("generating_1", 37.5%Q);
    ("generating_2", 62.5%Q);
    ("generating_final", 87.5%Q);
    ("completed", 100%Q);
    ("error", 0%Q) ].

Definition get_progress_percent (r : GeneratedImage) : Q :=
  default 0%Q (dict_get status_map (status r)).

(** The versions of a row that a run commits, one after each commit. *)
Fixpoint rows_after (cs : list (GeneratedImage -> GeneratedImage))
    (r : GeneratedImage) : list GeneratedImage :=
  match cs with
  | [] => []
  | c :: cs' => c r :: rows_after cs' (c r)
  end.

(** The side of the picture an executor sends for [source] when asked for
    1024: 512 once the saved PNG is above the normalizer's threshold. *)
Definition sent_side (env : Env) (source : bytes) : Z :=
  if (saved_png_nbytes env source 1024 <=? 3670016)%Z then 1024%Z else 512%Z.

(** What [edit_image_with_dalle] raises in place of an error whose text
    mentions edit or not found. *)
Definition dalle_unavailable (error_msg : string) : string :=
  "Image editing API may not be available. "
  ++ "DALL-E 3 doesn't support image editing. "
  ++ "Original error: " ++ error_msg.

(** A bounding box PIL accepts: no corner past its opposite. *)
Definition well_formed (b : Z * Z * Z * Z) : Prop :=
  let '(x0, y0, x1, y1) := b in (x0 <= x1 /\ y0 <= y1)%Z.

(** What PIL accepts of a mask: [Image.new] a side that is not negative,
    [ImageDraw.ellipse] a box with no corner past its opposite, and C ints
    throughout.  On any other arguments the generators of the source raise
    ([ValueError], [OverflowError]) where the display lists above still
    give the calls they attempted. *)
Definition box_ok (b : Z * Z * Z * Z) : Prop :=
  let '(x0, y0, x1, y1) := b in
  (- 2 ^ 31 <= x0 /\ x0 <= x1 /\ x1 < 2 ^ 31
   /\ - 2 ^ 31 <= y0 /\ y0 <= y1 /\ y1 < 2 ^ 31)%Z.

Definition drawable (m : mask) : Prop :=
  (0 <= mask_size m < 2 ^ 31)%Z
  /\ Forall (fun e => box_ok (box e)) (ellipses m).

(** A bounding box inside an S x S canvas. *)
Definition within_canvas (S : Z) (b : Z * Z * Z * Z) : Prop :=
  let '(x0, y0, x1, y1) := b in
  (0 <= x0 /\ x0 <= x1 /\ x1 <= S /\ 0 <= y0 /\ y0 <= y1 /\ y1 <= S)%Z.

(** A text without a dot. *)
Fixpoint dotless (s : string) : Prop :=
  match s with
  | EmptyString => True
  | String c rest => c <> "."%char /\ dotless rest
  end.

(** What [serve_image] answers the owner for a slot holding [d]. *)
Definition served (d : bytes) : response :=
  match d with
  | [] => DashboardRedirect "Image not found" "error"
  | _ :: _ => ImageResponse d "image/png"
  end.


(** [k'] is the text [k] up to the case folding of [re.IGNORECASE] when
    [ic] is set, and [k] itself otherwise. *)
Fixpoint same_text (ic : bool) (k k' : string) : Prop :=
  match k, k' with
  | EmptyString, EmptyString => True
  | String c k0, String x k0' =>
      cls_match ic (CChar c) x = true /\ same_text ic k0 k0'
  | _, _ => False
  end.

(** [k'] stands in [s] as a whole word: no word character touches it on
    either side. *)
Definition whole_word_at (s pre k' post : string) : Prop :=
  s = pre ++ k' ++ post
  /\ word_before (last_before None pre) = false
  /\ word_after post = false.

(** [key] stands in the response as a whole word, as the key loop tests
    it: literally, or in its form with spaces up to letter case. *)
Definition key_occurs (key r : string) : Prop :=
  exists pre k' post,
    whole_word_at r pre k' post
    /\ (k' = key \/ lower k' = lower (replace_char "_" " " key)).

(** [variant] stands in the response as a whole word, up to letter case. *)
Definition variant_occurs (variant r : string) : Prop :=
  exists pre k' post,
    whole_word_at r pre k' post /\ lower k' = lower variant.

(** A text that starts and ends with a word character. *)
Definition wordy (k : string) : Prop :=
  word_after k = true /\ word_before (last_before None k) = true.

(** ** app.py: [dashboard] *)

(** One row of the query result: the id, [created_at] and the other
    columns.  The query itself ([filter_by(user_id=...)], ordered by
    [created_at]) is the ORM's; its result is the input. *)
Record listed := mkListed {
  l_id : nat;
  l_created_at : Z;
  l_image : GeneratedImage
}.

(** [d[b].append(x)], creating [d[b] = []] first where [b] is new; the dict
    keeps insertion order. *)
Fixpoint dict_append (b : string) (x : listed)
    (d : list (string * list listed)) : list (string * list listed) :=
  match d with
  | [] => [(b, [x])]
  | (k, l) :: rest =>
      if String.eqb k b then (k, (l ++ [x])%list) :: rest
      else (k, l) :: dict_append b x rest
  end.

(** The first loop: images with a batch id are grouped under it, the
    others collected. *)
Definition group_image (st : list (string * list listed) * list listed)
    (image : listed) : list (string * list listed) * list listed :=
  let '(paired_images, single_images) := st in
  match batch_id (l_image image) with
  | Some (String c b) =>
      (dict_append (String c b) image paired_images, single_images)
  | _ => (paired_images, (single_images ++ [image])%list)
  end.

(** An entry of [paired_list]. *)
Record pair := mkPair {
  p_batch_id : string;
  p_image_1 : listed;
  p_image_2 : listed;
  p_created_at : Z
}.

(** [x.pipeline_type or ''] *)
Definition pipeline_key (x : listed) : string :=
  match pipeline_type (l_image x) with
  | Some s => s
  | None => ""
  end.

Definition str_lt (a b : string) : bool :=
  match String.compare a b with
  | Lt => true
  | _ => false
  end.

(** The second loop: a group of exactly two becomes a pair, its images
    sorted by [pipeline_key] (the sort is stable); any other group joins
    the single images. *)
Definition pair_up (st : list pair * list listed)
    (entry : string * list listed) : list pair * list listed :=
  let '(paired_list, single_images) := st in
  let '(batch, images) := entry in
  match images with
  | [a; b] =>
      let '(first, second) :=
        if str_lt (pipeline_key b) (pipeline_key a) then (b, a) else (a, b) in
      ((paired_list ++ [mkPair batch first second (l_created_at first)])%list,
       single_images)
  | _ => (paired_list, (single_images ++ images)%list)
  end.

(** An entry of [unified_items]. *)
Inductive item : Type :=
| Paired (data : pair)
| Single (data : listed).

Definition item_created_at (it : item) : Z :=
  match it with
  | Paired p => p_created_at p
  | Single x => l_created_at x
  end.

(** [list.sort(key=created_at, reverse=True)]: stable, so an item stays
    behind the items before it that are not older. *)
Fixpoint insert_newest (x : item) (sorted : list item) : list item :=
  match sorted with
  | [] => [x]
  | y :: rest =>
      if (item_created_at x <? item_created_at y)%Z
      then y :: insert_newest x rest
      else x :: y :: rest
  end.

Definition sort_newest_first (items : list item) : list item :=
  foldr insert_newest [] items.

(** The key of an item in [sequence_map]: the batch id (a string) or the
    image id (an integer). *)
Definition item_key (it : item) : string + nat :=
  match it with
  | Paired p => inl (p_batch_id p)
  | Single x => inr (l_id x)
  end.

(** The loop over [enumerate(unified_items)], from index [idx]. *)
Fixpoint number_items (total_count idx : nat) (items : list item)
    (sequence_map : gmap (string + nat) nat) : gmap (string + nat) nat :=
  match items with
  | [] => sequence_map
  | it :: rest =>
      number_items total_count (S idx) rest
        (<[item_key it := (total_count - idx)%nat]> sequence_map)
  end.

(** What [dashboard] hands to the template. *)
Definition dashboard (user_images : list listed)
  : list item * gmap (string + nat) nat :=
  let '(paired_images, single_images) :=
    fold_left group_image user_images ([], []) in
  let '(paired_list, single_images) :=
    fold_left pair_up paired_images ([], single_images) in
  let unified_items :=
    ((Paired <$> paired_list) ++ (Single <$> single_images))%list in
  let unified_items := sort_newest_first unified_items in
  let total_count := length unified_items in
  (unified_items, number_items total_count 0 unified_items ∅).

(** The images an item shows. *)
Definition item_images (it : item) : list listed :=
  match it with
  | Paired p => [p_image_1 p; p_image_2 p]
  | Single x => [x]
  end.

(** The image carries the (non-empty) batch id [b]. *)
Definition in_batch (b : string) (x : listed) : bool :=
  match batch_id (l_image x) with
  | Some (String c r) => String.eqb (String c r) b
  | _ => false
  end.

(** The image carries some batch id that Python takes as true. *)
Definition batched (x : listed) : bool :=
  match batch_id (l_image x) with
  | Some (String _ _) => true
  | _ => false
  end.

(** The images of the batch [b], in the order of the query. *)
Definition grouped (b : string) (user_images : list listed) : list listed :=
  List.filter (in_batch b) user_images.

(** No item is newer than one before it. *)
Fixpoint newest_first (items : list item) : Prop :=
  match items with
  | [] => True
  | y :: rest =>
      Forall (fun z => (item_created_at z <= item_created_at y)%Z) rest
      /\ newest_first rest
  end.

(** A pair made by the second loop from a batch of two in [d]. *)
Definition pair_ok (d : list (string * list listed)) (p : pair) : Prop :=
  (exists a b, (p_batch_id p, [a; b]) ∈ d
     /\ [p_image_1 p; p_image_2 p] ≡ₚ [a; b])
  /\ str_lt (pipeline_key (p_image_2 p)) (pipeline_key (p_image_1 p)) = false
  /\ p_created_at p = l_created_at (p_image_1 p).

(** An image the second loop moved to the single images. *)
Definition leftover_ok (d : list (string * list listed)) (x : listed) : Prop :=
  exists k l, (k, l) ∈ d /\ x ∈ l /\ length l <> 2%nat.


(** ** Vocabulary of the parsing order *)

Local Open Scope string_scope.




(** * Sample data *)

Local Open Scope string_scope.
Local Open Scope Z_scope.

Definition sample_png : bytes := [Byte.x89; Byte.x50; Byte.x4e; Byte.x47].

Definition sample_row : GeneratedImage :=
  mkGeneratedImage 7 sample_png (Some "beagle") "completed" None
    (Some [Byte.x01]) (Some [Byte.x02]) (Some [Byte.x03]) None (Some "gpt_only").

Definition sample_db : Database := {[ 1%nat := sample_row ]}.

(** An environment in which nothing outside answers: no credential, no
    picture decodes, every call fails. *)
Definition silent_env : Env :=
  mkEnv None None
    (fun _ => Raise "cannot identify image file")
    (fun _ _ => 1000000) (fun _ => 400000)
    (fun _ _ => Raise "Connection error.")
    (fun _ => Raise "Connection error.")
    (fun _ => Raise "Connection error.")
    (fun _ => Raise "Incorrect padding")
    (fun _ => 0%nat).

Definition oversized_png : png_file := mkPng 1024 1024 4000000.


Definition stage1_bytes : bytes := [Byte.x0b; Byte.x01].
Definition stage2_bytes : bytes := [Byte.x0b; Byte.x02].

(** A job as [upload] creates it. *)
Definition uploaded_row : GeneratedImage := new_row 7 sample_png None "gpt_only".
Definition uploaded_db : Database := {[ 1%nat := uploaded_row ]}.

(** The classifier answers beagle; the edit endpoint answers the original
    picture with a URL that fetches [stage1_bytes], answers those with an
    inline payload that decodes to [stage2_bytes], and resets the
    connection on anything else. *)
Definition scenario_env : Env :=
  mkEnv (Some "sk-test") None
    (fun _ => Return (mkPil "RGB" 800 600))
    (fun _ _ => 1200000) (fun _ => 400000)
    (fun _ _ => Return (Some (breed_object "beagle")))
    (fun req =>
       if bytes_eqb (req_image req) sample_png then
         Return (mkResponse [mkItem (Some "https://cdn.example/1.png") None "" ""] "")
       else if bytes_eqb (req_image req) stage1_bytes then
         Return (mkResponse [mkItem None (Some "CwI=") "" ""] "")
       else Raise "connection reset")
    (fun _ => Return stage1_bytes)
    (fun _ => Return stage2_bytes)
    (fun _ => 3%nat).

(** The same world without the credential. *)
Definition keyless_env : Env :=
  mkEnv None (Some "")
    (pil_open scenario_env) (saved_png_nbytes scenario_env)
    (resized_png_nbytes scenario_env) (chat_completions_create scenario_env)
    (images_edit scenario_env) (requests_get scenario_env)
    (b64decode scenario_env) (randbelow scenario_env).

Definition both_request : upload_request :=
  mkUpload "POST" (Some ("me.JPG", sample_png)) (Some "both").

(** The world of [scenario_env] with an edit endpoint that answers every
    request with an inline payload, so that all three stages return. *)
Definition complete_env : Env :=
  mkEnv (config_api_key scenario_env) (environ_api_key scenario_env)
    (pil_open scenario_env) (saved_png_nbytes scenario_env)
    (resized_png_nbytes scenario_env) (chat_completions_create scenario_env)
    (fun _ => Return (mkResponse [mkItem None (Some "CwI=") "" ""] ""))
    (requests_get scenario_env) (b64decode scenario_env)
    (randbelow scenario_env).

Definition complete_images : transformation_images :=
  mkImages stage2_bytes stage2_bytes stage2_bytes.

(** A query result: a single upload, the two rows of a both upload, and a
    later single upload. *)
Definition sample_listing : list listed :=
  [ mkListed 1 10 uploaded_row;
    mkListed 2 20 (new_row 7 sample_png (Some "7_20260101_120000") "gpt_only");
    mkListed 3 20 (new_row 7 sample_png (Some "7_20260101_120000") "dalle_gpt");
    mkListed 4 30 (new_row 7 sample_png None "dalle_gpt") ].





(** * Properties *)

(** ** Image retrieval *)

Section ServeImage.
Variables (db : Database) (uid image_id : nat) (image_type : string).

Lemma serve_image_missing :
  db !! image_id = None ->
  serve_image db (Some uid) image_id image_type = NotFound.
Proof. intros H. unfold serve_image. by rewrite H. Qed.

Lemma serve_image_foreign (r : GeneratedImage) :
  db !! image_id = Some r -> user_id r <> uid ->
  serve_image db (Some uid) image_id image_type
  = DashboardRedirect "Unauthorized access" "error".
Proof.
  intros H Hne. unfold serve_image. rewrite H.
  destruct (Nat.eqb_spec (user_id r) uid); [contradiction | reflexivity].
Qed.

Lemma serve_image_own (r : GeneratedImage) :
  db !! image_id = Some r -> user_id r = uid ->
  serve_image db (Some uid) image_id image_type
  = let slot :=
      if String.eqb image_type "original" then
        Some (Some (original_image_data r))
      else if String.eqb image_type "transition1" then Some (image_1_data r)
      else if String.eqb image_type "transition2" then Some (image_2_data r)
      else if String.eqb image_type "final" then
        Some (final_dog_image_data r)
      else None in
    match slot with
    | None => DashboardRedirect "Invalid image type" "error"
    | Some image_data =>
        if truthy_bytes image_data
        then ImageResponse (default [] image_data) "image/png"
        else DashboardRedirect "Image not found" "error"
    end.
Proof.
  intros H Hu. unfold serve_image. rewrite H, Hu, Nat.eqb_refl. reflexivity.
Qed.
End ServeImage.

(** What the last two branches of [serve_image] answer for a slot. *)
Lemma serve_slot (image_data : option bytes) (d : bytes) (m : string) :
  (if truthy_bytes image_data
   then ImageResponse (default [] image_data) "image/png"
   else DashboardRedirect "Image not found" "error") = ImageResponse d m
  <-> m = "image/png" /\ d <> [] /\ image_data = Some d.
Proof.
  destruct image_data as [[|b l]|]; simpl; split.
  all: try discriminate.
  all: try (intros (_ & Hd & H); inversion H; subst; contradiction).
  all: try (intros (_ & _ & H); discriminate H).
  - intros H. inversion H; subst. repeat split. discriminate.
  - intros (-> & _ & H). inversion H; subst. reflexivity.
Qed.

(** C7. A retrieval request by an authenticated account for a job that
    another account owns is answered with the redirect that flashes
    Unauthorized access, whatever the slot name and whatever the slots
    hold; no request for a job the account does not own is answered
    with image bytes. *)
Theorem serve_image_rejects_non_owner
    (db : Database) (uid image_id : nat) (image_type : string) :
  (forall r, db !! image_id = Some r -> user_id r <> uid) ->
  (forall r, db !! image_id = Some r ->
     serve_image db (Some uid) image_id image_type
     = DashboardRedirect "Unauthorized access" "error")
  /\ (forall d m,
        serve_image db (Some uid) image_id image_type <> ImageResponse d m).
Proof.
  intros Hown. split.
  - intros r Hr. apply serve_image_foreign with r; auto.
  - intros d m. destruct (db !! image_id) as [r|] eqn:Hr.
    + rewrite (serve_image_foreign db uid image_id image_type r Hr (Hown r eq_refl)).
      discriminate.
    + rewrite serve_image_missing by assumption. discriminate.
Qed.

Lemma serve_image_rejects_non_owner_witness :
  (forall r, sample_db !! 1%nat = Some r ->
     serve_image sample_db (Some 8%nat) 1 "final"
     = DashboardRedirect "Unauthorized access" "error")
  /\ (forall d m,
        serve_image sample_db (Some 8%nat) 1 "final" <> ImageResponse d m).
Proof.
  apply (serve_image_rejects_non_owner sample_db 8 1 "final").
  intros r Hr. vm_compute in Hr. inversion Hr; subst. simpl. lia.
Defined.

(** C10. For a request by the owner: a slot name other than original,
    transition1, transition2 and final is answered with the Invalid image
    type redirect; a valid slot that holds no data with the Image not found
    redirect; and bytes are returned, as image/png, exactly when the slot
    name is valid and the slot holds non-empty data, which is what is
    returned. *)
Theorem serve_image_owner_slots
    (db : Database) (uid image_id : nat) (image_type : string)
    (r : GeneratedImage) :
  db !! image_id = Some r -> user_id r = uid ->
  let reply := serve_image db (Some uid) image_id image_type in
  (image_type <> "original" -> image_type <> "transition1" ->
   image_type <> "transition2" -> image_type <> "final" ->
   reply = DashboardRedirect "Invalid image type" "error")
  /\ (image_type = "transition1" /\ image_1_data r = None
      \/ image_type = "transition2" /\ image_2_data r = None
      \/ image_type = "final" /\ final_dog_image_data r = None ->
      reply = DashboardRedirect "Image not found" "error")
  /\ (forall d m,
        reply = ImageResponse d m <->
        m = "image/png" /\ d <> [] /\
        (image_type = "original" /\ original_image_data r = d
         \/ image_type = "transition1" /\ image_1_data r = Some d
         \/ image_type = "transition2" /\ image_2_data r = Some d
         \/ image_type = "final" /\ final_dog_image_data r = Some d)).
Proof.
  intros Hr Hu reply. subst reply.
  rewrite (serve_image_own db uid image_id image_type r Hr Hu). cbv zeta.
  split; [|split].
  - intros H1 H2 H3 H4.
    apply String.eqb_neq in H1, H2, H3, H4. by rewrite H1, H2, H3, H4.
  - intros [[-> H]|[[-> H]|[-> H]]]; simpl; by rewrite H.
  - intros d m.
    destruct (String.eqb_spec image_type "original") as [ -> | N1 ];
      [|destruct (String.eqb_spec image_type "transition1") as [ -> | N2 ];
        [|destruct (String.eqb_spec image_type "transition2") as [ -> | N3 ];
          [|destruct (String.eqb_spec image_type "final") as [ -> | N4 ]]]].
    1-4: rewrite serve_slot; split;
      [ intros (Hm & Hd & Hs); repeat split; auto;
        try (left; split; [reflexivity | congruence]);
        try (right; left; split; [reflexivity | exact Hs]);
        try (right; right; left; split; [reflexivity | exact Hs]);
        try (right; right; right; split; [reflexivity | exact Hs])
      | intros (Hm & Hd & [[E H] | [[E H] | [[E H] | [E H]]]]);
        try discriminate E; repeat split; auto; congruence ].
    split; [discriminate|].
    intros (_ & _ & [[E _] | [[E _] | [[E _] | [E _]]]]); contradiction.
Qed.

Lemma serve_image_owner_slots_witness :
  serve_image sample_db (Some 7%nat) 1 "final" = ImageResponse [Byte.x03] "image/png".
Proof.
  apply (serve_image_owner_slots sample_db 7 1 "final" sample_row);
    [reflexivity | reflexivity |].
  split; [reflexivity | split; [discriminate |]].
  right; right; right. split; reflexivity.
Defined.

(** ** Mask geometry *)

Local Open Scope Z_scope.

Lemma round53_exact (p : Z) : 0 <= p < 2 ^ 53 -> round53 p = (p, 0).
Proof.
  intros [H0 H1]. unfold round53.
  assert (Z.log2 p < 53) as Hl.
  { destruct (Z.eq_dec p 0) as [ -> | Hn ]; [reflexivity | ].
    apply Z.log2_lt_pow2; lia. }
  destruct (Z.leb_spec (Z.log2 p + 1) 53); [reflexivity | lia].
Qed.

Lemma round53_rounded (p : Z) :
  2 ^ 53 <= p ->
  exists m, round53 p = (m, Z.log2 p - 52)
            /\ p / 2 ^ (Z.log2 p - 52) <= m <= p / 2 ^ (Z.log2 p - 52) + 1.
Proof.
  intros Hp. unfold round53.
  assert (53 <= Z.log2 p) as Hl by (apply Z.log2_le_pow2; lia).
  destruct (Z.leb_spec (Z.log2 p + 1) 53); [lia|].
  replace (Z.log2 p + 1 - 53) with (Z.log2 p - 52) by lia.
  eexists; split; [reflexivity|].
  repeat match goal with |- context [if ?c then _ else _] => destruct c end; lia.
Qed.

(** On a non-negative product the sign plays no part. *)
Lemma float_mul_int_unsigned (n : Z) (c : float64) :
  0 <= n * fnum c ->
  float_mul_int n c
  = (let '(m, sh) := round53 (n * fnum c) in mkFloat m (fexp c - sh)).
Proof.
  intros H. unfold float_mul_int. cbv zeta. rewrite Z.abs_eq by exact H.
  destruct (Z.eq_dec (n * fnum c) 0) as [Hz | Hz].
  - rewrite Hz. reflexivity.
  - rewrite Z.sgn_pos by lia.
    destruct (round53 (n * fnum c)) as [m sh]. f_equal. lia.
Qed.

Lemma int_of_float_unsigned (x : float64) :
  0 <= fnum x ->
  int_of_float x
  = (if 0 <=? fexp x then fnum x / 2 ^ fexp x else fnum x * 2 ^ (- fexp x)).
Proof.
  intros H. unfold int_of_float. destruct (Z.leb_spec 0 (fexp x)); [|reflexivity].
  apply Z.quot_div_nonneg; [exact H|]. apply Z.pow_pos_nonneg; lia.
Qed.

Lemma int_mul_half (n : Z) : 0 <= n < 2 ^ 53 -> int_mul n lit_0_5 = n / 2.
Proof.
  intros H. unfold int_mul.
  rewrite float_mul_int_unsigned by (simpl; lia).
  unfold lit_0_5. simpl fnum. simpl fexp.
  rewrite Z.mul_1_r, round53_exact by assumption.
  rewrite int_of_float_unsigned by (simpl; lia). reflexivity.
Qed.

Lemma int_mul_fifth (n : Z) : 0 <= n < 2 ^ 31 -> int_mul n lit_0_2 = n / 5.
Proof.
  intros [H0 H1]. unfold int_mul.
  rewrite float_mul_int_unsigned by (simpl; lia).
  unfold lit_0_2. simpl fnum. simpl fexp.
  set (M := 3602879701896397).
  destruct (Z_lt_le_dec (n * M) (2 ^ 53)) as [Hs|Hb].
  - rewrite round53_exact by (subst M; lia).
    rewrite int_of_float_unsigned by (simpl; subst M; lia).
    simpl.
    assert (n <= 2) by (subst M; lia).
    assert (n = 0 \/ n = 1 \/ n = 2) as [ -> | [ -> | -> ] ] by lia; reflexivity.
  - destruct (round53_rounded (n * M) Hb) as (m & -> & Hm).
    set (sh := Z.log2 (n * M) - 52) in *.
    assert (53 <= Z.log2 (n * M)) as Hl by (apply Z.log2_le_pow2; subst M; lia).
    assert (Z.log2 (n * M) < 83) as Hu.
    { apply Z.log2_lt_pow2; [subst M; lia|].
      change (2 ^ 83) with (2 ^ 31 * 2 ^ 52). subst M. nia. }
    assert (1 <= sh <= 30) as Hsh by (subst sh; lia).
    assert (0 <= m) as Hm0.
    { assert (0 <= n * M / 2 ^ sh); [|lia].
      apply Z_div_nonneg_nonneg; [subst M; lia|]. apply Z.pow_nonneg. lia. }
    rewrite int_of_float_unsigned by exact Hm0. simpl fexp; simpl fnum.
    destruct (Z.leb_spec 0 (54 - sh)); [|lia].
    set (A := 2 ^ sh) in *. set (B := 2 ^ (54 - sh)).
    assert (A * B = 2 ^ 54) as HAB.
    { subst A B. rewrite <- Z.pow_add_r by lia. f_equal. lia. }
    assert (0 < A <= 2 ^ 30) as HA.
    { subst A. split; [apply Z.pow_pos_nonneg; lia|].
      apply Z.pow_le_mono_r; lia. }
    assert (0 < B) as HB by (subst B; apply Z.pow_pos_nonneg; lia).
    pose proof (Z.div_mod (n * M) A ltac:(lia)) as Hdm.
    pose proof (Z.mod_pos_bound (n * M) A ltac:(lia)) as Hmb.
    set (q := n * M / A) in *.
    pose proof (Z.div_mod n 5 ltac:(lia)) as Hn5.
    pose proof (Z.mod_pos_bound n 5 ltac:(lia)) as Hn5b.
    set (k := n / 5) in *.
    symmetry. apply Z.div_unique with (m - k * B).
    2: lia.
    assert (5 * M = 2 ^ 54 + 1) as HM by (subst M; reflexivity).
    change (2 ^ 54) with 18014398509481984 in *.
    change (2 ^ 30) with 1073741824 in *.
    change (2 ^ 31) with 2147483648 in *.
    left. split.
    + (* k * B <= m *)
      assert (k * B <= q); [|lia].
      assert (k * (A * B) <= n * M) by nia.
      assert (A * (k * B) < A * (q + 1)) by nia.
      nia.
    + (* m < (k + 1) * B *)
      assert (q + 1 < (k + 1) * B); [|lia].
      assert (5 * (n * M) + 5 * A < 5 * ((k + 1) * (A * B)) - 5 * A) by nia.
      assert (A * (q + 1) < A * ((k + 1) * B - 1) + A) by nia.
      nia.
Qed.

Lemma inscribed_ellipse_in_box (b : Z * Z * Z * Z) (x y : Z) :
  inscribed_ellipse b x y = true -> in_box b x y.
Proof.
  destruct b as [[[x0 y0] x1] y1]. unfold inscribed_ellipse, in_box.
  rewrite !andb_true_iff, !Z.leb_le. tauto.
Qed.

(** C8. For every size S (positive, below 2^31) the face mask is an S x S
    canvas, opaque everywhere, on which a single transparent ellipse is
    painted; its bounding box is S/2 wide and high (50%, rounded down),
    starts S/5 from the top (20%, rounded down) and is centred
    horizontally to within one pixel.  A pixel the ellipse does not cover,
    and so every pixel outside the bounding box, is opaque; a covered
    pixel is transparent.  At S = 1000 the box is x in [250,750],
    y in [200,700]. *)
Theorem create_face_mask_region
    (covers : Z * Z * Z * Z -> Z -> Z -> bool) (S : Z) :
  (forall b x y, covers b x y = true -> in_box b x y) ->
  0 < S < 2 ^ 31 ->
  let m := create_face_mask S None None in
  let x0 := (S - S / 2) / 2 in
  let y0 := S / 5 in
  let x1 := x0 + S / 2 in
  let y1 := y0 + S / 2 in
  mask_size m = S
  /\ canvas_alpha m = opaque
  /\ ellipses m = [mkEllipse (x0, y0, x1, y1) transparent]
  /\ S - 1 <= x0 + x1 <= S
  /\ (forall x y,
        alpha_at covers m x y
        = if covers (x0, y0, x1, y1) x y then transparent else opaque)
  /\ (forall x y,
        ~ in_box (x0, y0, x1, y1) x y -> alpha_at covers m x y = opaque)
  /\ (S = 1000 -> (x0, y0, x1, y1) = (250, 200, 750, 700)).
Proof.
  intros Hbox HS m x0 y0 x1 y1.
  assert (ellipses m = [mkEllipse (x0, y0, x1, y1) transparent]) as He.
  { subst m x0 y0 x1 y1. unfold create_face_mask.
    rewrite int_mul_half, int_mul_fifth by lia. reflexivity. }
  assert (forall x y,
            alpha_at covers m x y
            = if covers (x0, y0, x1, y1) x y then transparent else opaque) as Ha.
  { intros x y. unfold alpha_at. rewrite He. reflexivity. }
  repeat split; try assumption; try reflexivity.
  - subst x0 x1. pose proof (Z.div_mod S 2 ltac:(lia)).
    pose proof (Z.mod_pos_bound S 2 ltac:(lia)).
    pose proof (Z.div_mod (S - S / 2) 2 ltac:(lia)).
    pose proof (Z.mod_pos_bound (S - S / 2) 2 ltac:(lia)). lia.
  - subst x0 x1. pose proof (Z.div_mod S 2 ltac:(lia)).
    pose proof (Z.mod_pos_bound S 2 ltac:(lia)).
    pose proof (Z.div_mod (S - S / 2) 2 ltac:(lia)).
    pose proof (Z.mod_pos_bound (S - S / 2) 2 ltac:(lia)). lia.
  - intros x y Hout. rewrite Ha.
    destruct (covers (x0, y0, x1, y1) x y) eqn:Hc; [|reflexivity].
    exfalso. apply Hout. apply Hbox. exact Hc.
  - intros ->. reflexivity.
Qed.

Lemma create_face_mask_region_witness :
  ellipses (create_face_mask 1000 None None)
  = [mkEllipse (250, 200, 750, 700) transparent]
  /\ (forall x y,
        ~ in_box (250, 200, 750, 700) x y ->
        alpha_at inscribed_ellipse (create_face_mask 1000 None None) x y
        = opaque).
Proof.
  destruct (create_face_mask_region inscribed_ellipse 1000
              inscribed_ellipse_in_box ltac:(lia))
    as (_ & _ & He & _ & _ & Hout & _).
  split; [exact He | exact Hout].
Defined.

(** ** The size normalizer *)

Lemma threshold_check (n : Z) :
  Qle_bool (inject_Z n) (default_max_size_mb * 1024 * 1024) = (n <=? 3670016).
Proof.
  unfold Qle_bool, default_max_size_mb. simpl.
  change (Z.pos (10 * 1 * 1)) with 10.
  change (35 * 1024 * 1024 * 1) with 36700160.
  destruct (Z.leb_spec (n * 10) 36700160), (Z.leb_spec n 3670016);
    try reflexivity; lia.
Qed.

Lemma ensure_png_under_4mb_small (env : Env) (f : png_file) :
  png_nbytes f <= 3670016 ->
  ensure_png_under_4mb env f default_max_size_mb = (f, 1024).
Proof.
  intros H. unfold ensure_png_under_4mb. rewrite threshold_check.
  destruct (Z.leb_spec (png_nbytes f) 3670016); [reflexivity | lia].
Qed.

Lemma ensure_png_under_4mb_large (env : Env) (f : png_file) :
  3670016 < png_nbytes f ->
  ensure_png_under_4mb env f default_max_size_mb
  = (mkPng 512 512 (resized_png_nbytes env f), 512).
Proof.
  intros H. unfold ensure_png_under_4mb. rewrite threshold_check.
  destruct (Z.leb_spec (png_nbytes f) 3670016); [lia | reflexivity].
Qed.

(** C2. The normalizer looks at the byte size only, so its report need not
    be the side of the file.  For a file above 3.5 * 1024 * 1024 = 3670016
    bytes whose 512 x 512 rewrite is within that size, the first run
    rewrites the file at 512 x 512 and reports 512; run again on that
    output, it leaves the file as it is, 512 x 512, and reports 1024, where
    the docstring promises the actual size used. *)
Theorem ensure_png_under_4mb_second_report (env : Env) (f : png_file) :
  3670016 < png_nbytes f ->
  resized_png_nbytes env f <= 3670016 ->
  let first := ensure_png_under_4mb env f default_max_size_mb in
  let again := ensure_png_under_4mb env (fst first) default_max_size_mb in
  first = (mkPng 512 512 (resized_png_nbytes env f), 512)
  /\ fst again = fst first
  /\ png_width (fst again) = 512
  /\ png_height (fst again) = 512
  /\ snd again = 1024.
Proof.
  intros Hl Hs first again. subst again first.
  rewrite ensure_png_under_4mb_large by assumption. simpl fst.
  rewrite ensure_png_under_4mb_small by assumption.
  repeat split.
Qed.

Lemma ensure_png_under_4mb_second_report_witness :
  ensure_png_under_4mb scenario_env oversized_png default_max_size_mb
  = (mkPng 512 512 400000, 512)
  /\ ensure_png_under_4mb scenario_env (mkPng 512 512 400000) default_max_size_mb
     = (mkPng 512 512 400000, 1024).
Proof.
  destruct (ensure_png_under_4mb_second_report scenario_env oversized_png)
    as (H1 & H2 & _ & _ & H3); [simpl; lia | simpl; lia |].
  split; [exact H1|].
  apply injective_projections; [exact H2 | exact H3].
Defined.

(** ** The breed classifier *)

Local Open Scope string_scope.

Lemma bind_Return {A B : Type} (a : A) (k : A -> outcome B) :
  (Return a ≫= k) = k a.
Proof. reflexivity. Qed.

Lemma bind_Raise {A B : Type} (e : string) (k : A -> outcome B) :
  (Raise e ≫= k) = Raise e.
Proof. reflexivity. Qed.

Lemma detect_dog_breed_handler (env : Env) (image : bytes) (e : string) :
  detect_dog_breed_body env image = Raise e ->
  detect_dog_breed env image = Return golden_default.
Proof. intros H. unfold detect_dog_breed. rewrite H. reflexivity. Qed.

Lemma detect_dog_breed_passes (env : Env) (image : bytes) (v : string * string) :
  detect_dog_breed_body env image = Return v ->
  detect_dog_breed env image = Return v.
Proof. intros H. unfold detect_dog_breed. rewrite H. reflexivity. Qed.

Lemma bind_return {A B : Type} (m : outcome A) (k : A -> outcome B) (b : B) :
  (m ≫= k) = Return b -> exists a, m = Return a /\ k a = Return b.
Proof. destruct m as [a|e]; simpl; [eauto | discriminate]. Qed.

Lemma breed_description_return (key d : string) :
  breed_description key = Return d ->
  exists info, dict_get DOG_BREEDS key = Some info /\ description info = d.
Proof.
  unfold breed_description. destruct (dict_get DOG_BREEDS key) as [info|];
    [|discriminate].
  intros H. inversion H. eauto.
Qed.

Lemma detect_dog_breed_body_return (env : Env) (image : bytes) (key d : string) :
  detect_dog_breed_body env image = Return (key, d) ->
  exists info, dict_get DOG_BREEDS key = Some info /\ description info = d.
Proof.
  unfold detect_dog_breed_body. destruct (negb _); [discriminate|].
  intros H.
  apply bind_return in H as (img & _ & H1).
  apply bind_return in H1 as (resp & _ & H2).
  apply bind_return in H2 as (content & _ & H3).
  apply bind_return in H3 as (k & _ & H4).
  apply bind_return in H4 as (d' & Hd & H5).
  inversion H5; subst. apply breed_description_return. exact Hd.
Qed.

Lemma detect_dog_breed_total (env : Env) (image : bytes) :
  exists key info,
    detect_dog_breed env image = Return (key, description info)
    /\ dict_get DOG_BREEDS key = Some info.
Proof.
  destruct (detect_dog_breed_body env image) as [[key d]|e] eqn:Hb.
  - destruct (detect_dog_breed_body_return env image key d Hb) as (info & Hi & <-).
    exists key, info. split; [apply detect_dog_breed_passes; exact Hb | exact Hi].
  - exists "golden_retriever". eexists. split; cycle 1.
    + reflexivity.
    + rewrite (detect_dog_breed_handler env image e Hb). reflexivity.
Qed.

Lemma detect_dog_breed_unanswered (env : Env) (image : bytes) :
  ~ (exists content, responds env image content) ->
  detect_dog_breed env image = Return golden_default.
Proof.
  intros Hno. unfold detect_dog_breed, detect_dog_breed_body.
  destruct (truthy_str (api_key env)) eqn:Hk; [|reflexivity]. simpl negb.
  destruct (pil_open env image) as [img|e] eqn:Hi; [|reflexivity].
  rewrite bind_Return.
  destruct (chat_completions_create env "gpt-4o-mini" image)
    as [[content|]|e1] eqn:H1.
  - exfalso. apply Hno. exists content. unfold responds. eauto 6.
  - reflexivity.
  - simpl try_except.
    destruct (chat_completions_create env "gpt-4o" image)
      as [[content|]|e2] eqn:H2; [|reflexivity|reflexivity].
    exfalso. apply Hno. exists content. unfold responds. eauto 8.
Qed.

(** C5. The classifier never raises: for every environment and picture it
    returns a key of DOG_BREEDS with that key's description.  Whenever
    anything inside raises, and whenever no completion text reaches the
    parser (no credential, a picture that does not decode, both models
    failing, a completion without content), what it returns is
    golden_retriever with its description. *)
Theorem detect_dog_breed_never_raises (env : Env) (image : bytes) :
  (exists key info,
     detect_dog_breed env image = Return (key, description info)
     /\ dict_get DOG_BREEDS key = Some info)
  /\ (forall e,
        detect_dog_breed_body env image = Raise e ->
        detect_dog_breed env image = Return golden_default)
  /\ (~ (exists content, responds env image content) ->
      detect_dog_breed env image = Return golden_default)
  /\ (truthy_str (api_key env) = false ->
      detect_dog_breed env image = Return golden_default)
  /\ (forall e,
        pil_open env image = Raise e ->
        detect_dog_breed env image = Return golden_default)
  /\ (forall e1 e2,
        chat_completions_create env "gpt-4o-mini" image = Raise e1 ->
        chat_completions_create env "gpt-4o" image = Raise e2 ->
        detect_dog_breed env image = Return golden_default).
Proof.
  split; [apply detect_dog_breed_total|].
  split; [apply detect_dog_breed_handler|].
  split; [apply detect_dog_breed_unanswered|].
  split; [|split].
  - intros Hk. apply detect_dog_breed_unanswered.
    intros (content & Hk' & _). congruence.
  - intros e He. apply detect_dog_breed_unanswered.
    intros (content & _ & [img Hi] & _). congruence.
  - intros e1 e2 H1 H2. apply detect_dog_breed_unanswered.
    intros (content & _ & _ & [Hc | [_ Hc]]); congruence.
Qed.












Lemma re_search_from_here (ic : bool) (r : list atom) (prev : option ascii)
    (s : string) :
  found (re_match ic r prev s false EmptyString) = true ->
  found (re_search_from ic r prev s) = true.
Proof.
  intros H. destruct s; simpl;
    destruct (re_match ic r prev _ false EmptyString); auto; discriminate.
Qed.

(** A match somewhere in the text is found by the search. *)
Lemma re_search_from_later (ic : bool) (r : list atom) (pre s : string) :
  forall prev,
    found (re_search_from ic r (last_before prev pre) s) = true ->
    found (re_search_from ic r prev (pre ++ s)) = true.
Proof.
  induction pre as [|c pre IH]; intros prev H; [exact H|].
  simpl. destruct (re_match ic r prev _ false EmptyString); [reflexivity|].
  apply IH. exact H.
Qed.


Lemma append_assoc (a b c : string) : (a ++ b) ++ c = a ++ (b ++ c).
Proof.
  induction a as [|x a IH]; [reflexivity|].
  change (String x ((a ++ b) ++ c) = String x (a ++ (b ++ c))).
  f_equal. exact IH.
Qed.





Lemma detect_dog_breed_never_raises_witness :
  detect_dog_breed silent_env sample_png = Return golden_default.
Proof.
  destruct (detect_dog_breed_never_raises silent_env sample_png)
    as (_ & _ & _ & H & _).
  apply H. reflexivity.
Defined.


Local Open Scope string_scope.
Local Open Scope nat_scope.

(** ** The job runner *)

Lemma process_image_generation_commits (env : Env) (image_id : nat)
    (pipeline_type : string) (db : Database) :
  process_image_generation env image_id pipeline_type db
  = run_commits (thread_commits env image_id pipeline_type db) db.
Proof.
  unfold process_image_generation, thread_commits, job_commits.
  destruct (db !! image_id) as [r|]; [|reflexivity].
  destruct (detect_dog_breed env _) as [[breed d]|e]; [|reflexivity].
  destruct (generate_transformation_images env _ _ _ _); reflexivity.
Qed.

Lemma run_commits_lookup
    (schedule : list (nat * (GeneratedImage -> GeneratedImage))) (j : nat) :
  forall db : Database,
    run_commits schedule db !! j
    = apply_commits (row_commits j schedule) <$> db !! j.
Proof.
  unfold run_commits, row_commits, apply_commits.
  induction schedule as [|[i c] l IH]; intros db; simpl.
  - by destruct (db !! j).
  - rewrite IH. unfold commit. rewrite filter_cons. simpl.
    destruct (decide (i = j)) as [->|Hne].
    + rewrite lookup_alter_eq. simpl. by destruct (db !! j).
    + by rewrite lookup_alter_ne.
Qed.

Lemma row_commits_own (j : nat) (cs : list (GeneratedImage -> GeneratedImage)) :
  row_commits j ((fun c => (j, c)) <$> cs) = cs.
Proof.
  unfold row_commits. induction cs as [|c cs IH]; [reflexivity|].
  rewrite fmap_cons, filter_cons. simpl.
  destruct (decide (j = j)); [|contradiction].
  rewrite fmap_cons. simpl. f_equal. exact IH.
Qed.

Lemma row_commits_foreign (i j : nat)
    (cs : list (GeneratedImage -> GeneratedImage)) :
  i <> j -> row_commits j ((fun c => (i, c)) <$> cs) = [].
Proof.
  intros Hne. unfold row_commits. induction cs as [|c cs IH]; [reflexivity|].
  rewrite fmap_cons, filter_cons. simpl.
  destruct (decide (i = j)); [contradiction|]. exact IH.
Qed.

Lemma process_image_generation_row (env : Env) (image_id : nat)
    (pipeline_type : string) (db : Database) (r : GeneratedImage) :
  db !! image_id = Some r ->
  process_image_generation env image_id pipeline_type db !! image_id
  = Some (apply_commits (job_commits env r pipeline_type) r).
Proof.
  intros Hr. rewrite process_image_generation_commits, run_commits_lookup.
  unfold thread_commits. rewrite Hr, row_commits_own. reflexivity.
Qed.

Lemma process_image_generation_frame (env : Env) (image_id j : nat)
    (pipeline_type : string) (db : Database) :
  j <> image_id ->
  process_image_generation env image_id pipeline_type db !! j = db !! j.
Proof.
  intros Hne. rewrite process_image_generation_commits, run_commits_lookup.
  unfold thread_commits. destruct (db !! image_id) as [r|].
  - rewrite row_commits_foreign by auto. by destruct (db !! j).
  - by destruct (db !! j).
Qed.

Lemma row_commits_interleaving (j : nat)
    (l1 l2 l : list (nat * (GeneratedImage -> GeneratedImage))) :
  interleaving l1 l2 l ->
  row_commits j l1 = [] ->
  row_commits j l = row_commits j l2.
Proof.
  unfold row_commits. induction 1 as [|[i c] l1 l2 l H IH|[i c] l1 l2 l H IH];
    intros Hnone; [reflexivity| |].
  - rewrite filter_cons in Hnone. rewrite filter_cons. simpl in *.
    destruct (decide (i = j)); [discriminate|]. apply IH. exact Hnone.
  - rewrite !filter_cons. simpl.
    destruct (decide (i = j)); [rewrite !fmap_cons; f_equal|]; apply IH;
      exact Hnone.
Qed.

Lemma interleaving_sym {A : Type} (l1 l2 l : list A) :
  interleaving l1 l2 l -> interleaving l2 l1 l.
Proof. induction 1; constructor; assumption. Qed.

(** Two threads on different rows: whatever the schedule, each row ends as
    if its thread had run alone. *)
Lemma interleaved_threads (env1 env2 : Env) (id_1 id_2 : nat)
    (pipeline_1 pipeline_2 : string) (db : Database)
    (schedule : list (nat * (GeneratedImage -> GeneratedImage))) :
  id_1 <> id_2 ->
  interleaving (thread_commits env1 id_1 pipeline_1 db)
               (thread_commits env2 id_2 pipeline_2 db) schedule ->
  run_commits schedule db !! id_1
  = process_image_generation env1 id_1 pipeline_1 db !! id_1
  /\ run_commits schedule db !! id_2
     = process_image_generation env2 id_2 pipeline_2 db !! id_2.
Proof.
  intros Hne Hi.
  rewrite !process_image_generation_commits, !run_commits_lookup.
  assert (forall env i j p, i <> j -> row_commits j (thread_commits env i p db) = [])
    as Hforeign.
  { intros env i j p Hij. unfold thread_commits.
    destruct (db !! i); [apply row_commits_foreign; exact Hij | reflexivity]. }
  split.
  - rewrite (row_commits_interleaving id_1 _ _ _ (interleaving_sym _ _ _ Hi))
      by (apply Hforeign; auto).
    reflexivity.
  - rewrite (row_commits_interleaving id_2 _ _ _ Hi) by (apply Hforeign; auto).
    reflexivity.
Qed.

(** ** The pipeline *)

Lemma prefix_refl (s : string) : String.prefix s s = true.
Proof.
  induction s as [|c s IH]; [reflexivity|]. simpl.
  destruct (ascii_dec c c); [exact IH | contradiction].
Qed.

Lemma str_in_here (needle hay : string) :
  String.prefix needle hay = true -> str_in needle hay = true.
Proof. intros H. destruct hay; simpl in *; rewrite H; reflexivity. Qed.

Lemma str_in_app (needle pre : string) : str_in needle (pre ++ needle) = true.
Proof.
  induction pre as [|c pre IH].
  - apply str_in_here, prefix_refl.
  - change (String c pre ++ needle) with (String c (pre ++ needle)).
    simpl. rewrite IH. apply orb_true_r.
Qed.

Lemma stage_Return (label : string) (b : bytes) :
  stage label (Return b) = Return b.
Proof. reflexivity. Qed.

Lemma stage_Raise (label e : string) :
  stage label (Raise e) = Raise (label ++ e).
Proof. reflexivity. Qed.

Lemma stage_1_edit_opens (env : Env) (pipeline_type : string) (o : bytes)
    (p : string) (m : mask) (b : bytes) :
  stage_1_edit env pipeline_type o p m = Return b ->
  exists img, pil_open env o = Return img.
Proof.
  unfold stage_1_edit, edit_image_with_dalle, edit_image_with_gpt_image1.
  destruct (String.eqb pipeline_type "dalle_gpt");
    (destruct (negb (truthy_str (api_key env))); [discriminate|]);
    (destruct (pil_open env o) as [img|e]; [eauto | discriminate]).
Qed.

Lemma generate_stage_3_raises (env : Env) (original : bytes)
    (breed_description breed pipeline_type e : string) (B1 B2 : bytes) :
  let features := breed_features_of (Some breed) in
  let display := breed_name_display_of breed_description (Some breed) in
  let face_mask := create_face_mask 1024 None None in
  stage_1_edit env pipeline_type original
    (ears_prompt (ear_type_of features) display) face_mask = Return B1 ->
  stage_2_edit env pipeline_type B1 (snout_prompt display) face_mask
  = Return B2 ->
  stage_3_edit env pipeline_type B2 display features = Raise e ->
  generate_transformation_images env original breed_description (Some breed)
    pipeline_type
  = Raise (stage_3_label ++ e).
Proof.
  intros features display face_mask H1 H2 H3.
  destruct (stage_1_edit_opens _ _ _ _ _ _ H1) as [img Hopen].
  unfold generate_transformation_images. rewrite Hopen, bind_Return.
  fold features display face_mask.
  rewrite H1, stage_Return, bind_Return, H2, stage_Return, bind_Return, H3.
  reflexivity.
Qed.

(** C1, as the code has it. When stages 1 and 2 return bytes and stage 3
    raises with message e, the job's row ends with status error and the
    error message Error: Stage 3 Error (finalizing with gpt-image-1): e,
    which contains Stage 3 and e.  The bytes of stages 1 and 2 are not
    written: the three image columns keep the values they had (unset for a
    job just uploaded).  What was committed before is kept: the detected
    breed, the original picture, owner, batch id and pipeline; and no other
    row changes. *)
Theorem stage_3_failure_final_state (env : Env) (db : Database)
    (image_id : nat) (pipeline : string) (r : GeneratedImage)
    (breed breed_description e : string) (B1 B2 : bytes) :
  let features := breed_features_of (Some breed) in
  let display := breed_name_display_of breed_description (Some breed) in
  let face_mask := create_face_mask 1024 None None in
  db !! image_id = Some r ->
  detect_dog_breed env (original_image_data r)
  = Return (breed, breed_description) ->
  stage_1_edit env pipeline (original_image_data r)
    (ears_prompt (ear_type_of features) display) face_mask = Return B1 ->
  stage_2_edit env pipeline B1 (snout_prompt display) face_mask
  = Return B2 ->
  stage_3_edit env pipeline B2 display features = Raise e ->
  exists r' detail,
    process_image_generation env image_id pipeline db !! image_id = Some r'
    /\ status r' = "error"
    /\ error_message r' = Some detail
    /\ detail = "Error: Stage 3 Error (finalizing with gpt-image-1): " ++ e
    /\ str_in "Stage 3" detail = true
    /\ str_in e detail = true
    /\ image_1_data r' = image_1_data r
    /\ image_2_data r' = image_2_data r
    /\ final_dog_image_data r' = final_dog_image_data r
    /\ breed_detected r' = Some breed
    /\ original_image_data r' = original_image_data r
    /\ user_id r' = user_id r
    /\ batch_id r' = batch_id r
    /\ pipeline_type r' = pipeline_type r
    /\ (forall j, j <> image_id ->
          process_image_generation env image_id pipeline db !! j = db !! j).
Proof.
  intros features display face_mask Hr Hd H1 H2 H3.
  pose proof (generate_stage_3_raises env (original_image_data r)
                breed_description breed pipeline e B1 B2 H1 H2 H3) as Hg.
  eexists _, _. split.
  { rewrite (process_image_generation_row env image_id pipeline db r Hr).
    unfold job_commits. rewrite Hd, Hg. reflexivity. }
  simpl.
  repeat split; try reflexivity.
  - apply (str_in_app e "Error: Stage 3 Error (finalizing with gpt-image-1): ").
  - intros j Hj. apply process_image_generation_frame. exact Hj.
Qed.

Lemma stage_3_failure_final_state_witness :
  exists r' detail,
    process_image_generation scenario_env 1 "gpt_only" uploaded_db !! 1%nat
    = Some r'
    /\ status r' = "error"
    /\ error_message r' = Some detail
    /\ detail
       = "Error: Stage 3 Error (finalizing with gpt-image-1): connection reset"
    /\ str_in "Stage 3" detail = true
    /\ str_in "connection reset" detail = true
    /\ image_1_data r' = None
    /\ image_2_data r' = None
    /\ final_dog_image_data r' = None
    /\ breed_detected r' = Some "beagle".
Proof.
  destruct (stage_3_failure_final_state scenario_env uploaded_db 1 "gpt_only"
              uploaded_row "beagle" "friendly and curious Beagle"
              "connection reset" stage1_bytes stage2_bytes)
    as (r' & detail & H);
    [reflexivity | reflexivity | reflexivity | reflexivity | reflexivity |].
  exists r', detail. intuition.
Defined.

(** C1 as stated fails: with stage 1 returning [stage1_bytes], stage 2
    returning [stage2_bytes] and stage 3 raising connection reset, the row
    ends with status error and no stage image at all. *)
Lemma stage_outputs_not_persisted :
  let features := breed_features_of (Some "beagle") in
  let display := breed_name_display_of "friendly and curious Beagle" (Some "beagle") in
  let face_mask := create_face_mask 1024 None None in
  detect_dog_breed scenario_env sample_png
  = Return ("beagle", "friendly and curious Beagle")
  /\ stage_1_edit scenario_env "gpt_only" sample_png
       (ears_prompt (ear_type_of features) display) face_mask
     = Return stage1_bytes
  /\ stage_2_edit scenario_env "gpt_only" stage1_bytes (snout_prompt display)
       face_mask
     = Return stage2_bytes
  /\ stage_3_edit scenario_env "gpt_only" stage2_bytes display features
     = Raise "connection reset"
  /\ ~ (exists r',
          process_image_generation scenario_env 1 "gpt_only" uploaded_db
          !! 1%nat = Some r'
          /\ status r' = "error"
          /\ image_1_data r' = Some stage1_bytes
          /\ image_2_data r' = Some stage2_bytes).
Proof.
  repeat split; try reflexivity.
  intros (r' & Hr & _ & H1 & _). vm_compute in Hr.
  inversion Hr; subst r'. discriminate H1.
Qed.

(** ** A missing credential *)

Lemma detect_dog_breed_keyless (env : Env) (image : bytes) :
  truthy_str (api_key env) = false ->
  detect_dog_breed env image = Return golden_default.
Proof.
  intros Hk. unfold detect_dog_breed, detect_dog_breed_body.
  rewrite Hk. reflexivity.
Qed.

Lemma stage_1_edit_keyless (env : Env) (pipeline : string) (o : bytes)
    (p : string) (m : mask) :
  truthy_str (api_key env) = false ->
  stage_1_edit env pipeline o p m = Raise missing_key_message.
Proof.
  intros Hk.
  unfold stage_1_edit, edit_image_with_dalle, edit_image_with_gpt_image1.
  rewrite Hk. by destruct (String.eqb pipeline "dalle_gpt").
Qed.

Lemma generate_keyless (env : Env) (original : bytes)
    (breed_description : string) (breed_name : option string)
    (pipeline : string) :
  truthy_str (api_key env) = false ->
  generate_transformation_images env original breed_description breed_name
    pipeline
  = match pil_open env original with
    | Return _ => Raise (stage_1_label ++ missing_key_message)
    | Raise e => Raise e
    end.
Proof.
  intros Hk. unfold generate_transformation_images.
  destruct (pil_open env original) as [img|e]; [|reflexivity].
  rewrite bind_Return, stage_1_edit_keyless by exact Hk. reflexivity.
Qed.

(** C3, as the code has it. Without a credential the job ends with status
    error and no stage image written, but not at the start: the classifier
    swallows the configuration error and answers golden_retriever, which is
    committed as the detected breed together with status generating_1; the
    run then fails when the original picture does not open, or else at
    stage 1, whose message names the missing OPENAI_API_KEY. *)
Theorem missing_credential_final_state (env : Env) (db : Database)
    (image_id : nat) (pipeline : string) (r : GeneratedImage) :
  db !! image_id = Some r ->
  truthy_str (api_key env) = false ->
  exists r' detail,
    process_image_generation env image_id pipeline db !! image_id = Some r'
    /\ status r' = "error"
    /\ breed_detected r' = Some "golden_retriever"
    /\ error_message r' = Some ("Error: " ++ detail)
    /\ (forall img,
          pil_open env (original_image_data r) = Return img ->
          detail = "Stage 1 Error (adding ears): "
                   ++ "OPENAI_API_KEY is not set. Please check your .env file.")
    /\ (forall e, pil_open env (original_image_data r) = Raise e -> detail = e)
    /\ image_1_data r' = image_1_data r
    /\ image_2_data r' = image_2_data r
    /\ final_dog_image_data r' = final_dog_image_data r
    /\ original_image_data r' = original_image_data r
    /\ job_commits env r pipeline
       = [ set_status "detecting";
           (fun r => set_status "generating_1"
                       (set_breed_detected "golden_retriever" r));
           mark_error detail ].
Proof.
  intros Hr Hk.
  exists (apply_commits (job_commits env r pipeline) r).
  assert (job_commits env r pipeline
          = [ set_status "detecting";
              (fun r => set_status "generating_1"
                          (set_breed_detected "golden_retriever" r));
              mark_error
                (match pil_open env (original_image_data r) with
                 | Return _ => stage_1_label ++ missing_key_message
                 | Raise e => e
                 end) ]) as Hc.
  { unfold job_commits.
    rewrite detect_dog_breed_keyless by exact Hk. unfold golden_default.
    rewrite generate_keyless by exact Hk.
    by destruct (pil_open env (original_image_data r)). }
  eexists. split.
  { apply process_image_generation_row. exact Hr. }
  rewrite Hc. simpl.
  repeat split; try reflexivity.
  - intros img ->. reflexivity.
  - intros e ->. reflexivity.
Qed.

Lemma missing_credential_final_state_witness :
  exists r',
    process_image_generation keyless_env 1 "gpt_only" uploaded_db !! 1%nat
    = Some r'
    /\ status r' = "error"
    /\ breed_detected r' = Some "golden_retriever"
    /\ image_1_data r' = None.
Proof.
  destruct (missing_credential_final_state keyless_env uploaded_db 1 "gpt_only"
              uploaded_row)
    as (r' & detail & H); [reflexivity | reflexivity |].
  exists r'. intuition.
Defined.

(** C3 as stated fails: without a credential the row still receives a
    detected breed before it is marked as failed. *)
Lemma missing_credential_sets_breed :
  truthy_str (api_key keyless_env) = false
  /\ ~ (exists r',
          process_image_generation keyless_env 1 "gpt_only" uploaded_db
          !! 1%nat = Some r'
          /\ status r' = "error"
          /\ breed_detected r' = None).
Proof.
  split; [reflexivity|].
  intros (r' & Hr & _ & Hb). vm_compute in Hr.
  inversion Hr; subst r'. discriminate Hb.
Qed.

(** ** Upload *)

Lemma next_id_fresh (db : Database) : db !! next_id db = None.
Proof.
  destruct (db !! next_id db) as [r|] eqn:Hr; [|reflexivity].
  exfalso. apply elem_of_map_to_list in Hr.
  assert (next_id db ∈ (fst <$> map_to_list db)) as Hin.
  { apply list_elem_of_fmap. exists (next_id db, r). split; [reflexivity|exact Hr]. }
  apply max_list_elem_of_le in Hin. unfold next_id in Hin. lia.
Qed.

Lemma next_id_insert (db : Database) (r : GeneratedImage) :
  next_id (<[next_id db := r]> db) <> next_id db.
Proof.
  intros Heq.
  pose proof (next_id_fresh (<[next_id db := r]> db)) as Hf.
  rewrite Heq, lookup_insert_eq in Hf. discriminate.
Qed.

Lemma allowed_file_nonempty (filename : string) :
  allowed_file filename = true -> filename <> EmptyString.
Proof. intros H ->. discriminate. Qed.

Lemma upload_single (db : Database) (uid : nat) (request : upload_request)
    (timestamp filename : string) (file_data : bytes) :
  method request = "POST" ->
  file request = Some (filename, file_data) ->
  allowed_file filename = true ->
  default "gpt_only" (form_pipeline_type request) <> "both" ->
  upload db (Some uid) request timestamp
  = let pipeline := default "gpt_only" (form_pipeline_type request) in
    mkResult ToDashboard
      (Some ("Image uploaded! Generation in progress.", "success"))
      (mkSession (<[next_id db := new_row uid file_data None pipeline]> db) []
         [[next_id db]])
      [(next_id db, pipeline)].
Proof.
  intros Hm Hf Ha Hp. unfold upload. rewrite Hm, Hf. simpl.
  destruct filename as [|c f]; [discriminate|]. rewrite Ha.
  apply String.eqb_neq in Hp. rewrite Hp. reflexivity.
Qed.

Lemma upload_both (db : Database) (uid : nat) (request : upload_request)
    (timestamp filename : string) (file_data : bytes) :
  method request = "POST" ->
  file request = Some (filename, file_data) ->
  allowed_file filename = true ->
  form_pipeline_type request = Some "both" ->
  upload db (Some uid) request timestamp
  = let batch := Some (pretty uid ++ "_" ++ timestamp) in
    let row_1 := new_row uid file_data batch "dalle_gpt" in
    let row_2 := new_row uid file_data batch "gpt_only" in
    let id_1 := next_id db in
    let id_2 := next_id (<[id_1 := row_1]> db) in
    mkResult ToDashboard
      (Some ("Image uploaded! Both pipelines running simultaneously.", "success"))
      (mkSession (<[id_2 := row_2]> (<[id_1 := row_1]> db)) [] [[id_1; id_2]])
      [(id_1, "dalle_gpt"); (id_2, "gpt_only")].
Proof.
  intros Hm Hf Ha Hp. unfold upload. rewrite Hm, Hf, Hp. simpl.
  destruct filename as [|c f]; [discriminate|]. rewrite Ha. reflexivity.
Qed.

(** C9. A pipeline kind other than dalle_gpt is run as gpt_only, stage by
    stage and as a whole; the upload form stores and passes on whatever
    kind it is given (other than both, which makes the pair), and
    gpt_only when it is given none; nothing rejects an unknown kind. *)
Theorem unknown_pipeline_runs_gpt_only (env : Env) (pipeline : string) :
  pipeline <> "dalle_gpt" ->
  (forall o p m,
     stage_1_edit env pipeline o p m
     = edit_image_with_gpt_image1 env o p 1024 "safe_radius" (Some m))
  /\ (forall o p m,
        stage_2_edit env pipeline o p m
        = edit_image_with_gpt_image1 env o p 1024 "face" (Some m))
  /\ (forall o d fs,
        stage_3_edit env pipeline o d fs = finalize_with_gpt_image1 env o d fs)
  /\ (forall o d n,
        generate_transformation_images env o d n pipeline
        = generate_transformation_images env o d n "gpt_only")
  /\ (forall image_id db,
        process_image_generation env image_id pipeline db
        = process_image_generation env image_id "gpt_only" db)
  /\ (forall db uid request timestamp filename file_data,
        method request = "POST" ->
        file request = Some (filename, file_data) ->
        allowed_file filename = true ->
        form_pipeline_type request = Some pipeline ->
        pipeline <> "both" ->
        let result := upload db (Some uid) request timestamp in
        reply result = ToDashboard
        /\ threads result = [(next_id db, pipeline)]
        /\ committed (after result) !! next_id db
           = Some (new_row uid file_data None pipeline))
  /\ (forall db uid request timestamp filename file_data,
        method request = "POST" ->
        file request = Some (filename, file_data) ->
        allowed_file filename = true ->
        form_pipeline_type request = None ->
        let result := upload db (Some uid) request timestamp in
        reply result = ToDashboard
        /\ threads result = [(next_id db, "gpt_only")]
        /\ committed (after result) !! next_id db
           = Some (new_row uid file_data None "gpt_only")).
Proof.
  intros Hne. apply String.eqb_neq in Hne.
  assert (forall o d n,
            generate_transformation_images env o d n pipeline
            = generate_transformation_images env o d n "gpt_only") as Hg.
  { intros o d n. unfold generate_transformation_images,
      stage_1_edit, stage_2_edit, stage_3_edit.
    rewrite Hne. reflexivity. }
  split; [|split; [|split; [|split; [|split; [|split]]]]].
  - intros. unfold stage_1_edit. by rewrite Hne.
  - intros. unfold stage_2_edit. by rewrite Hne.
  - intros. unfold stage_3_edit. by rewrite Hne.
  - exact Hg.
  - intros image_id db. unfold process_image_generation.
    destruct (db !! image_id) as [r|]; [|reflexivity].
    destruct (detect_dog_breed env _) as [[b d]|e]; [|reflexivity].
    rewrite Hg. reflexivity.
  - intros db uid request timestamp filename file_data Hm Hf Ha Hp Hb result.
    subst result.
    rewrite (upload_single db uid request timestamp filename file_data)
      by (try assumption; rewrite Hp; exact Hb).
    rewrite Hp. simpl. repeat split. apply lookup_insert_eq.
  - intros db uid request timestamp filename file_data Hm Hf Ha Hp result.
    subst result.
    rewrite (upload_single db uid request timestamp filename file_data)
      by (try assumption; rewrite Hp; discriminate).
    rewrite Hp. simpl. repeat split. apply lookup_insert_eq.
Qed.

Lemma unknown_pipeline_runs_gpt_only_witness :
  process_image_generation scenario_env 1 "turbo" uploaded_db
  = process_image_generation scenario_env 1 "gpt_only" uploaded_db.
Proof.
  destruct (unknown_pipeline_runs_gpt_only scenario_env "turbo")
    as (_ & _ & _ & _ & H & _); [discriminate|].
  apply H.
Defined.

(** C6. An upload that selects both, with an allowed file, makes one
    commit that inserts exactly two new rows and changes no other row.  The
    two rows carry the same batch id, the user id and the timestamp joined
    by an underscore; both hold the bytes of the uploaded file and belong to
    the uploader; the first has pipeline dalle_gpt and the second gpt_only;
    both have status uploaded and no breed, error message or generated
    picture.  One thread is started per row with that row's pipeline.
    However the commits of the two threads interleave, and whatever each
    thread meets outside, each row ends as if its thread had run alone: a
    failure of one job leaves the other job's row, and so its status, as it
    would have been. *)
Theorem upload_both_creates_pair (db : Database) (uid : nat)
    (request : upload_request) (timestamp filename : string)
    (file_data : bytes) :
  method request = "POST" ->
  file request = Some (filename, file_data) ->
  allowed_file filename = true ->
  form_pipeline_type request = Some "both" ->
  let result := upload db (Some uid) request timestamp in
  let db' := committed (after result) in
  exists id_1 id_2 job_1 job_2,
    id_1 <> id_2
    /\ db !! id_1 = None /\ db !! id_2 = None
    /\ transactions (after result) = [[id_1; id_2]]
    /\ pending (after result) = []
    /\ threads result = [(id_1, "dalle_gpt"); (id_2, "gpt_only")]
    /\ db' !! id_1 = Some job_1
    /\ db' !! id_2 = Some job_2
    /\ batch_id job_1 = Some (pretty uid ++ "_" ++ timestamp)
    /\ batch_id job_2 = batch_id job_1
    /\ pipeline_type job_1 = Some "dalle_gpt"
    /\ pipeline_type job_2 = Some "gpt_only"
    /\ original_image_data job_1 = file_data
    /\ original_image_data job_2 = file_data
    /\ user_id job_1 = uid /\ user_id job_2 = uid
    /\ status job_1 = "uploaded" /\ status job_2 = "uploaded"
    /\ breed_detected job_1 = None /\ breed_detected job_2 = None
    /\ error_message job_1 = None /\ error_message job_2 = None
    /\ image_1_data job_1 = None /\ image_1_data job_2 = None
    /\ image_2_data job_1 = None /\ image_2_data job_2 = None
    /\ final_dog_image_data job_1 = None /\ final_dog_image_data job_2 = None
    /\ dom db' = dom db ∪ {[ id_1; id_2 ]}
    /\ (forall j, j <> id_1 -> j <> id_2 -> db' !! j = db !! j)
    /\ (forall env1 env2 schedule,
          interleaving (thread_commits env1 id_1 "dalle_gpt" db')
                       (thread_commits env2 id_2 "gpt_only" db') schedule ->
          run_commits schedule db' !! id_1
          = process_image_generation env1 id_1 "dalle_gpt" db' !! id_1
          /\ run_commits schedule db' !! id_2
             = process_image_generation env2 id_2 "gpt_only" db' !! id_2)
    /\ (forall env1,
          process_image_generation env1 id_1 "dalle_gpt" db' !! id_2
          = db' !! id_2)
    /\ (forall env2,
          process_image_generation env2 id_2 "gpt_only" db' !! id_1
          = db' !! id_1).
Proof.
  intros Hm Hf Ha Hp result db'. subst db' result.
  rewrite (upload_both db uid request timestamp filename file_data Hm Hf Ha Hp).
  cbv zeta. simpl after. simpl committed. simpl transactions. simpl pending.
  simpl threads.
  set (batch := pretty uid ++ "_" ++ timestamp).
  set (row_1 := new_row uid file_data (Some batch) "dalle_gpt").
  set (row_2 := new_row uid file_data (Some batch) "gpt_only").
  set (id_1 := next_id db).
  set (id_2 := next_id (<[id_1 := row_1]> db)).
  assert (id_2 <> id_1) as Hne by apply next_id_insert.
  assert (<[id_1:=row_1]> db !! id_2 = None) as Hfresh by apply next_id_fresh.
  exists id_1, id_2, row_1, row_2.
  split; [auto|]. split; [apply next_id_fresh|].
  split; [rewrite lookup_insert_ne in Hfresh by auto; exact Hfresh|].
  split; [reflexivity|]. split; [reflexivity|]. split; [reflexivity|].
  split; [rewrite lookup_insert_ne by auto; apply lookup_insert_eq|].
  split; [apply lookup_insert_eq|].
  do 20 (split; [reflexivity|]).
  split.
  { rewrite !dom_insert_L. apply set_eq. intros j.
    rewrite !elem_of_union, !elem_of_singleton. tauto. }
  split; [intros j H1 H2; by rewrite !lookup_insert_ne by auto|].
  split; [intros env1 env2 schedule Hs;
          apply (interleaved_threads env1 env2 id_1 id_2); auto|].
  split; intros; apply process_image_generation_frame; auto.
Qed.

Lemma upload_both_creates_pair_witness :
  let result := upload uploaded_db (Some 7%nat) both_request "20260101_120000" in
  exists job_1 job_2,
    threads result = [(2, "dalle_gpt"); (3, "gpt_only")]
    /\ transactions (after result) = [[2; 3]]
    /\ committed (after result) !! 2 = Some job_1
    /\ committed (after result) !! 3 = Some job_2
    /\ batch_id job_1 = Some "7_20260101_120000"
    /\ batch_id job_2 = Some "7_20260101_120000"
    /\ pipeline_type job_1 = Some "dalle_gpt"
    /\ pipeline_type job_2 = Some "gpt_only"
    /\ original_image_data job_1 = sample_png
    /\ original_image_data job_2 = sample_png
    /\ status job_1 = "uploaded" /\ status job_2 = "uploaded".
Proof.
  destruct (upload_both_creates_pair uploaded_db 7 both_request
              "20260101_120000" "me.JPG" sample_png)
    as (id_1 & id_2 & job_1 & job_2 & _ & _ & _ & Ht & _ & Hth & H1 & H2
        & Hb1 & Hb2 & Hp1 & Hp2 & Ho1 & Ho2 & _ & _ & Hs1 & Hs2 & _);
    [reflexivity | reflexivity | reflexivity | reflexivity |].
  assert (Hids : id_1 = 2 /\ id_2 = 3).
  { vm_compute in Ht. injection Ht as <- <-. split; reflexivity. }
  destruct Hids as [-> ->].
  exists job_1, job_2.
  rewrite Hb1 in Hb2.
  repeat (split; [assumption|]). assumption.
Defined.

(** * Jobs and executors *)

Local Open Scope nat_scope.
Local Open Scope string_scope.

Lemma rows_after_last (cs : list (GeneratedImage -> GeneratedImage)) :
  forall (c : GeneratedImage -> GeneratedImage) (r : GeneratedImage),
    last (rows_after (c :: cs) r) = Some (apply_commits (c :: cs) r).
Proof.
  induction cs as [|c' cs IH]; intros c r; [reflexivity|].
  change (rows_after (c :: c' :: cs) r)
    with (c r :: rows_after (c' :: cs) (c r)).
  change (apply_commits (c :: c' :: cs) r)
    with (apply_commits (c' :: cs) (c r)).
  rewrite <- IH. reflexivity.
Qed.


Lemma stage_return_inv (label : string) (body : outcome bytes) (b : bytes) :
  stage label body = Return b -> body = Return b.
Proof. destruct body; simpl; [auto | discriminate]. Qed.

Lemma stage_raise_inv (label : string) (body : outcome bytes) (e : string) :
  stage label body = Raise e -> exists e', body = Raise e' /\ e = label ++ e'.
Proof.
  destruct body as [b|e']; simpl; [discriminate|].
  intros [= <-]. eauto.
Qed.

(** X4. Where [generate_transformation_images] returns, the original
    decodes and the three stages are chained: stage 1 edits the original,
    stage 2 edits the output of stage 1 and stage 3 the output of stage 2,
    stages 1 and 2 under one face mask of side 1024. *)
Theorem generate_chains_stages (env : Env) (original : bytes)
    (breed_description : string) (breed_name : option string)
    (pipeline : string) (imgs : transformation_images) :
  generate_transformation_images env original breed_description breed_name
    pipeline = Return imgs ->
  let features := breed_features_of breed_name in
  let display := breed_name_display_of breed_description breed_name in
  let face_mask := create_face_mask 1024 None None in
  (exists img, pil_open env original = Return img)
  /\ stage_1_edit env pipeline original
       (ears_prompt (ear_type_of features) display) face_mask
     = Return (image_1 imgs)
  /\ stage_2_edit env pipeline (image_1 imgs) (snout_prompt display) face_mask
     = Return (image_2 imgs)
  /\ stage_3_edit env pipeline (image_2 imgs) display features
     = Return (final imgs).
Proof.
  intros H features display face_mask.
  unfold generate_transformation_images in H.
  fold features display face_mask in H.
  apply bind_return in H as (img & Hopen & H1).
  apply bind_return in H1 as (b1 & Hs1 & H2).
  apply bind_return in H2 as (b2 & Hs2 & H3).
  apply bind_return in H3 as (b3 & Hs3 & H4).
  inversion H4; subst imgs. simpl.
  apply stage_return_inv in Hs1, Hs2, Hs3. eauto.
Qed.

Lemma generate_chains_stages_witness :
  stage_1_edit complete_env "gpt_only" sample_png
    (ears_prompt (ear_type_of (breed_features_of (Some "beagle")))
       (breed_name_display_of "friendly and curious Beagle" (Some "beagle")))
    (create_face_mask 1024 None None)
  = Return stage2_bytes
  /\ stage_2_edit complete_env "gpt_only" stage2_bytes
       (snout_prompt
          (breed_name_display_of "friendly and curious Beagle" (Some "beagle")))
       (create_face_mask 1024 None None)
     = Return stage2_bytes
  /\ stage_3_edit complete_env "gpt_only" stage2_bytes
       (breed_name_display_of "friendly and curious Beagle" (Some "beagle"))
       (breed_features_of (Some "beagle"))
     = Return stage2_bytes.
Proof.
  destruct (generate_chains_stages complete_env sample_png
              "friendly and curious Beagle" (Some "beagle") "gpt_only"
              complete_images)
    as (_ & H1 & H2 & H3); [reflexivity|].
  split; [exact H1 | split; [exact H2 | exact H3]].
Defined.

Lemma bind_raise {A B : Type} (m : outcome A) (k : A -> outcome B) (e : string) :
  (m ≫= k) = Raise e -> m = Raise e \/ exists a, m = Return a /\ k a = Raise e.
Proof. destruct m as [a|e']; simpl; [eauto | intros [= ->]; auto]. Qed.

(** X5. Where [generate_transformation_images] raises, the text is the
    decoder's error, or the label of the first stage that failed followed by
    that stage's own error, all stages before it having returned. *)
Theorem generate_error_names_stage (env : Env) (original : bytes)
    (breed_description : string) (breed_name : option string)
    (pipeline e : string) :
  generate_transformation_images env original breed_description breed_name
    pipeline = Raise e ->
  let features := breed_features_of breed_name in
  let display := breed_name_display_of breed_description breed_name in
  let face_mask := create_face_mask 1024 None None in
  let prompt_1 := ears_prompt (ear_type_of features) display in
  pil_open env original = Raise e
  \/ (exists e1,
        stage_1_edit env pipeline original prompt_1 face_mask = Raise e1
        /\ e = "Stage 1 Error (adding ears): " ++ e1)
  \/ (exists b1 e2,
        stage_1_edit env pipeline original prompt_1 face_mask = Return b1
        /\ stage_2_edit env pipeline b1 (snout_prompt display) face_mask
           = Raise e2
        /\ e = "Stage 2 Error (adding snout): " ++ e2)
  \/ (exists b1 b2 e3,
        stage_1_edit env pipeline original prompt_1 face_mask = Return b1
        /\ stage_2_edit env pipeline b1 (snout_prompt display) face_mask
           = Return b2
        /\ stage_3_edit env pipeline b2 display features = Raise e3
        /\ e = "Stage 3 Error (finalizing with gpt-image-1): " ++ e3).
Proof.
  intros H features display face_mask prompt_1.
  unfold generate_transformation_images in H.
  fold features display face_mask prompt_1 in H.
  apply bind_raise in H as [H | (img & _ & H)]; [auto|].
  apply bind_raise in H as [H | (b1 & H1 & H)].
  { apply stage_raise_inv in H as (e1 & H & ->). right; left. eauto. }
  apply stage_return_inv in H1.
  apply bind_raise in H as [H | (b2 & H2 & H)].
  { apply stage_raise_inv in H as (e2 & H & ->). right; right; left. eauto 6. }
  apply stage_return_inv in H2.
  apply bind_raise in H as [H | (b3 & H3 & H)]; [|discriminate].
  apply stage_raise_inv in H as (e3 & H & ->). right; right; right. eauto 8.
Qed.

Lemma generate_error_names_stage_witness :
  exists b1 b2,
    stage_2_edit scenario_env "gpt_only" b1
      (snout_prompt
         (breed_name_display_of "friendly and curious Beagle" (Some "beagle")))
      (create_face_mask 1024 None None)
    = Return b2
    /\ stage_3_edit scenario_env "gpt_only" b2
         (breed_name_display_of "friendly and curious Beagle" (Some "beagle"))
         (breed_features_of (Some "beagle"))
       = Raise "connection reset".
Proof.
  destruct (generate_error_names_stage scenario_env sample_png
              "friendly and curious Beagle" (Some "beagle") "gpt_only"
              "Stage 3 Error (finalizing with gpt-image-1): connection reset")
    as [H | [(e1 & _ & H) | [(b1 & e2 & _ & _ & H) | (b1 & b2 & e3 & _ & H2 & H3 & He)]]];
    [reflexivity | discriminate H | discriminate H | discriminate H |].
  exists b1, b2. split; [exact H2|].
  assert (He3 : e3 = "connection reset") by (cbv in He; congruence).
  rewrite <- He3. exact H3.
Defined.



(** X3. [process_image_generation] creates and deletes no row, changes no
    row but its own, and changes nothing when its row is missing. *)
Theorem process_image_generation_touches_one_row (env : Env) (db : Database)
    (image_id : nat) (pipeline : string) :
  let db' := process_image_generation env image_id pipeline db in
  dom db' = dom db
  /\ (forall j, j <> image_id -> db' !! j = db !! j)
  /\ (db !! image_id = None -> db' = db).
Proof.
  intros db'. subst db'. split; [|split].
  - rewrite process_image_generation_commits.
    generalize (thread_commits env image_id pipeline db). intros l.
    revert db. induction l as [|[i c] l IH]; intros db; [reflexivity|].
    simpl. rewrite IH. unfold commit. apply dom_alter_L.
  - intros j Hj. apply process_image_generation_frame. exact Hj.
  - intros Hn. unfold process_image_generation. rewrite Hn. reflexivity.
Qed.

Local Open Scope Z_scope.

Lemma save_for_api_1024 (env : Env) (source : bytes) :
  exists file,
    save_for_api env source 1024 = (file, sent_side env source)
    /\ png_width file = sent_side env source
    /\ png_height file = sent_side env source.
Proof.
  unfold save_for_api, sent_side.
  destruct (Z.leb_spec (saved_png_nbytes env source 1024) 3670016) as [Hs|Hl].
  - rewrite ensure_png_under_4mb_small by exact Hs. eauto.
  - rewrite ensure_png_under_4mb_large by exact Hl. eauto.
Qed.

Lemma sent_side_cases (env : Env) (source : bytes) :
  sent_side env source = 1024 /\ saved_png_nbytes env source 1024 <= 3670016
  \/ sent_side env source = 512 /\ 3670016 < saved_png_nbytes env source 1024.
Proof.
  unfold sent_side.
  destruct (Z.leb_spec (saved_png_nbytes env source 1024) 3670016); auto.
Qed.

Lemma str_in_later (needle pre s : string) :
  str_in needle s = true -> str_in needle (pre ++ s) = true.
Proof.
  intros H. induction pre as [|c pre IH]; [exact H|].
  change (String c pre ++ s) with (String c (pre ++ s)).
  simpl. rewrite IH. apply orb_true_r.
Qed.

Lemma str_in_refl (s : string) : str_in s s = true.
Proof. apply str_in_here, prefix_refl. Qed.

(** X6. With a credential and a source that decodes, the three gpt-image-1
    executors send one request each: model gpt-image-1, the source, the
    mask of their kind and their prompt, with one side for picture, mask
    and the size field, which is 1024, or 512 when the saved PNG is above
    the 3.5 MB threshold.  A face mask handed to
    [edit_image_with_gpt_image1] is sent as it is. *)
Theorem gpt_image1_requests (env : Env) (source : bytes) (img : pil_image) :
  truthy_str (api_key env) = true ->
  pil_open env source = Return img ->
  let side := sent_side env source in
  (side = 1024 /\ saved_png_nbytes env source 1024 <= 3670016
   \/ side = 512 /\ 3670016 < saved_png_nbytes env source 1024)
  /\ (forall prompt mask_type face_mask,
        edit_image_with_gpt_image1 env source prompt 1024 mask_type face_mask
        = images_edit env
            (mkRequest (Some "gpt-image-1") source side
               (if String.eqb mask_type "safe_radius"
                then create_safe_radius_mask side None None lit_0_60
                else default (create_face_mask side None None) face_mask)
               prompt side)
          ≫= read_edit_response env)
  /\ (forall display features,
        finalize_with_gpt_image1_enhance_only env source display features
        = images_edit env
            (mkRequest (Some "gpt-image-1") source side
               (create_full_head_mask side None None)
               (enhance_only_prompt display) side)
          ≫= read_edit_response env)
  /\ (forall display features,
        finalize_with_gpt_image1 env source display features
        = images_edit env
            (mkRequest (Some "gpt-image-1") source side
               (create_head_and_body_mask side None None)
               (body_fur_prompt display) side)
          ≫= read_edit_response env).
Proof.
  intros Hk Ho side.
  destruct (save_for_api_1024 env source) as (file & Hsave & Hw & _).
  assert ((if negb (sent_side env source =? 1024) then sent_side env source
           else 1024) = sent_side env source) as Hside.
  { destruct (Z.eqb_spec (sent_side env source) 1024) as [->|]; reflexivity. }
  split; [apply sent_side_cases|].
  split; [|split].
  - intros prompt mask_type face_mask. unfold edit_image_with_gpt_image1.
    rewrite Hk, Ho, bind_Return, Hsave, Hside, Hw. simpl negb. cbv iota.
    fold side. by destruct face_mask.
  - intros display features. unfold finalize_with_gpt_image1_enhance_only.
    rewrite Hk, Ho, bind_Return, Hsave, Hside, Hw. reflexivity.
  - intros display features. unfold finalize_with_gpt_image1.
    rewrite Hk, Ho, bind_Return, Hsave, Hside, Hw. reflexivity.
Qed.

Lemma gpt_image1_requests_witness :
  sent_side scenario_env sample_png = 1024%Z
  /\ finalize_with_gpt_image1 scenario_env sample_png "Beagle" []
     = images_edit scenario_env
         (mkRequest (Some "gpt-image-1") sample_png 1024
            (create_head_and_body_mask 1024 None None)
            (body_fur_prompt "Beagle") 1024)
       ≫= read_edit_response scenario_env.
Proof.
  destruct (gpt_image1_requests scenario_env sample_png (mkPil "RGB" 800 600))
    as (_ & _ & _ & H); [reflexivity | reflexivity |].
  split; [reflexivity | exact (H "Beagle" [])].
Defined.

Local Open Scope string_scope.

(** X7. When the edit endpoint fails, [edit_image_with_dalle] raises a text
    that contains the endpoint's error: the error itself, or the note on
    editing support followed by it when the error mentions edit or
    not found. *)
Theorem edit_image_with_dalle_keeps_cause (env : Env) (source : bytes)
    (img : pil_image) (prompt mask_type : string) (face_mask : option mask)
    (e : string) :
  truthy_str (api_key env) = true ->
  pil_open env source = Return img ->
  (forall req, req_image req = source -> images_edit env req = Raise e) ->
  exists msg,
    edit_image_with_dalle env source prompt 1024 mask_type face_mask = Raise msg
    /\ str_in e msg = true
    /\ msg = (if str_in "edit" (lower e) || str_in "not found" (lower e)
              then dalle_unavailable e else e).
Proof.
  intros Hk Ho He.
  destruct (save_for_api_1024 env source) as (file & Hsave & _).
  eexists. split.
  - unfold edit_image_with_dalle. rewrite Hk, Ho, bind_Return, Hsave.
    rewrite He by reflexivity. rewrite bind_Raise. simpl try_except.
    fold (dalle_unavailable e).
    instantiate (1 := if str_in "edit" (lower e) || str_in "not found" (lower e)
                      then dalle_unavailable e else e).
    by destruct (str_in "edit" (lower e) || str_in "not found" (lower e)).
  - split; [|reflexivity].
    destruct (str_in "edit" (lower e) || str_in "not found" (lower e)).
    + unfold dalle_unavailable. rewrite <- !append_assoc. apply str_in_app.
    + apply str_in_refl.
Qed.

Lemma edit_image_with_dalle_keeps_cause_witness :
  exists msg,
    edit_image_with_dalle scenario_env stage2_bytes "add ears" 1024 "face" None
    = Raise msg
    /\ str_in "connection reset" msg = true.
Proof.
  destruct (edit_image_with_dalle_keeps_cause scenario_env stage2_bytes
              (mkPil "RGB" 800 600) "add ears" "face" None "connection reset")
    as (msg & H & Hin & _); [reflexivity | reflexivity | |].
  - intros req Hreq. cbv [images_edit scenario_env]. rewrite Hreq.
    reflexivity.
  - exists msg. split; [exact H | exact Hin].
Defined.

(** * Masks *)

Local Open Scope nat_scope.
Local Open Scope Z_scope.

(** A double that stands for the fraction [p / q]: [q * M = p * 2^k + d]
    with a small excess [d].  Truncating its product with a size gives the
    integer quotient. *)
Lemma int_mul_ratio (n M k p q d : Z) :
  0 <= n < 2 ^ 31 -> 0 < M < 2 ^ 53 -> 43 <= k ->
  0 < q <= 32 -> 0 <= p -> 0 <= d <= 32 ->
  q * M = p * 2 ^ k + d ->
  int_mul n (mkFloat M k) = p * n / q.
Proof.
  intros Hn HM Hk Hq Hp Hd Heq.
  unfold int_mul. rewrite float_mul_int_unsigned by (simpl; nia).
  simpl fnum. simpl fexp.
  assert (2 ^ 43 <= 2 ^ k) as HK by (apply Z.pow_le_mono_r; lia).
  set (K := 2 ^ k) in *.
  change (2 ^ 43) with 8796093022208 in HK.
  change (2 ^ 31) with 2147483648 in Hn.
  pose proof (Z.div_mod (p * n) q ltac:(lia)) as Hdm.
  pose proof (Z.mod_pos_bound (p * n) q ltac:(lia)) as Hmb.
  set (t := p * n / q) in *. set (s := (p * n) mod q) in *.
  assert (q * (n * M) = (q * t + s) * K + n * d) as HP by nia.
  assert (0 <= n * d <= 2147483648 * 32) as Hnd by nia.
  assert (t * K <= n * M) as Hlow.
  { assert (q * (t * K) <= q * (n * M)) by nia. nia. }
  destruct (Z_lt_le_dec (n * M) (2 ^ 53)) as [Hs|Hb].
  - rewrite round53_exact by nia.
    rewrite int_of_float_unsigned by (simpl; nia). simpl fexp; simpl fnum.
    destruct (Z.leb_spec 0 (k - 0)); [|lia].
    replace (k - 0) with k by lia. fold K.
    symmetry. apply Z.div_unique with (n * M - t * K). 2: lia.
    left. split; [lia|].
    assert (q * (n * M - t * K) < q * K) by nia. nia.
  - destruct (round53_rounded (n * M) Hb) as (m & -> & Hm).
    set (sh := Z.log2 (n * M) - 52) in *.
    assert (53 <= Z.log2 (n * M)) as Hl by (apply Z.log2_le_pow2; lia).
    assert (Z.log2 (n * M) < 84) as Hu.
    { apply Z.log2_lt_pow2; [lia|].
      change (2 ^ 84) with (2147483648 * 2 ^ 53). nia. }
    assert (1 <= sh <= 31) as Hsh by (subst sh; lia).
    assert (0 <= m) as Hm0.
    { assert (0 <= n * M / 2 ^ sh); [|lia].
      apply Z_div_nonneg_nonneg; [nia|]. apply Z.pow_nonneg. lia. }
    rewrite int_of_float_unsigned by exact Hm0. simpl fexp; simpl fnum.
    destruct (Z.leb_spec 0 (k - sh)); [|lia].
    set (A := 2 ^ sh) in *. set (B := 2 ^ (k - sh)).
    assert (A * B = K) as HAB.
    { subst A B K. rewrite <- Z.pow_add_r by lia. f_equal. lia. }
    assert (0 < A <= 2 ^ 31) as HA.
    { subst A. split; [apply Z.pow_pos_nonneg; lia|].
      apply Z.pow_le_mono_r; lia. }
    change (2 ^ 31) with 2147483648 in HA.
    assert (0 < B) as HB by (subst B; apply Z.pow_pos_nonneg; lia).
    pose proof (Z.div_mod (n * M) A ltac:(lia)) as Hdm'.
    pose proof (Z.mod_pos_bound (n * M) A ltac:(lia)) as Hmb'.
    set (qq := n * M / A) in *.
    assert (n * M + A < (t + 1) * K) as Hup.
    { assert (q * (n * M + A) < q * ((t + 1) * K)) by nia. nia. }
    symmetry. apply Z.div_unique with (m - t * B). 2: lia.
    left. split.
    + assert (t * B <= qq); [|lia].
      assert (A * (t * B) < A * (qq + 1)) by nia. nia.
    + assert (qq + 1 < (t + 1) * B); [|lia].
      assert (A * (qq + 1) < A * ((t + 1) * B)) by nia. nia.
Qed.

Lemma int_mul_0_65 (n : Z) : 0 <= n < 2 ^ 31 -> int_mul n lit_0_65 = 13 * n / 20.
Proof.
  intros H. apply (int_mul_ratio n _ 53 13 20 4); try lia; reflexivity.
Qed.

Lemma int_mul_0_05 (n : Z) : 0 <= n < 2 ^ 31 -> int_mul n lit_0_05 = n / 20.
Proof.
  intros H. unfold lit_0_05.
  rewrite (int_mul_ratio n _ 56 1 20 4); try lia; try reflexivity.
  f_equal. lia.
Qed.

Lemma int_mul_0_75 (n : Z) : 0 <= n < 2 ^ 31 -> int_mul n lit_0_75 = 3 * n / 4.
Proof.
  intros H. unfold int_mul.
  rewrite float_mul_int_unsigned by (simpl; lia).
  unfold lit_0_75. simpl fnum. simpl fexp.
  rewrite round53_exact by (change (2 ^ 31) with 2147483648 in H;
                            change (2 ^ 53) with 9007199254740992; lia).
  rewrite int_of_float_unsigned by (simpl; lia). simpl. f_equal. lia.
Qed.

Lemma int_of_float_nonneg (x : float64) : 0 <= fnum x -> 0 <= int_of_float x.
Proof.
  intros H. rewrite int_of_float_unsigned by exact H. destruct (0 <=? fexp x).
  - apply Z_div_nonneg_nonneg; [exact H|]. apply Z.pow_nonneg. lia.
  - apply Z.mul_nonneg_nonneg; [exact H|]. apply Z.pow_nonneg. lia.
Qed.

Lemma int_mul_nonneg (n : Z) (c : float64) :
  0 <= n -> 0 <= fnum c -> 0 <= int_mul n c.
Proof.
  intros Hn Hc. unfold int_mul.
  assert (0 <= n * fnum c) as HP by nia.
  rewrite float_mul_int_unsigned by exact HP.
  destruct (Z_lt_le_dec (n * fnum c) (2 ^ 53)) as [Hs|Hb].
  - rewrite round53_exact by lia. apply int_of_float_nonneg. exact HP.
  - destruct (round53_rounded (n * fnum c) Hb) as (m & -> & Hm).
    apply int_of_float_nonneg. simpl.
    assert (0 <= n * fnum c / 2 ^ (Z.log2 (n * fnum c) - 52)); [|lia].
    apply Z_div_nonneg_nonneg; [exact HP|]. apply Z.pow_nonneg. lia.
Qed.

Local Open Scope Z_scope.

Section Masks.
Variable covers : Z * Z * Z * Z -> Z -> Z -> bool.

Lemma drawable_boxes (m : mask) (e : ellipse) :
  drawable m -> In e (ellipses m) -> box_ok (box e).
Proof.
  intros [_ H] Hin. rewrite Forall_forall in H. apply H.
  apply list_elem_of_In, Hin.
Qed.

(** X8. Where PIL accepts the calls of [create_safe_radius_mask], it
    accepts those of [create_face_mask] for the same arguments; the inner
    ellipse of the ring is the ellipse of the face mask and is drawn opaque
    over the outer one: a pixel the inner ellipse covers is preserved, and
    a pixel the ring leaves editable is one the face mask preserves. *)
Theorem safe_radius_mask_preserves_face (S : Z)
    (face_region_size face_top_offset : option Z) (percent : float64)
    (x y : Z) :
  let donut :=
    create_safe_radius_mask S face_region_size face_top_offset percent in
  let face := create_face_mask S face_region_size face_top_offset in
  drawable donut ->
  drawable face
  /\ exists outer inner,
       ellipses donut = [mkEllipse outer transparent; mkEllipse inner opaque]
       /\ ellipses face = [mkEllipse inner transparent]
       /\ box_ok outer /\ box_ok inner
       /\ alpha_at covers donut x y
          = (if covers inner x y then opaque
             else if covers outer x y then transparent else opaque)
       /\ (covers inner x y = true -> alpha_at covers donut x y = opaque)
       /\ (alpha_at covers donut x y = transparent ->
           alpha_at covers face x y = opaque).
Proof.
  intros donut face Hd.
  assert (exists outer inner,
            ellipses donut = [mkEllipse outer transparent; mkEllipse inner opaque]
            /\ ellipses face = [mkEllipse inner transparent]
            /\ mask_size face = mask_size donut) as (outer & inner & Ed & Ef & Es).
  { subst donut face. unfold create_safe_radius_mask, create_face_mask.
    eexists _, _. repeat split. }
  assert (box_ok outer) as Ho.
  { apply (drawable_boxes donut (mkEllipse outer transparent) Hd).
    rewrite Ed. left. reflexivity. }
  assert (box_ok inner) as Hi.
  { apply (drawable_boxes donut (mkEllipse inner opaque) Hd).
    rewrite Ed. right. left. reflexivity. }
  split.
  - split; [rewrite Es; apply Hd|]. rewrite Ef. repeat constructor. exact Hi.
  - exists outer, inner. split; [exact Ed|]. split; [exact Ef|].
    split; [exact Ho|]. split; [exact Hi|].
    unfold alpha_at. rewrite Ed, Ef.
    assert (canvas_alpha donut = opaque /\ canvas_alpha face = opaque)
      as [Cd Cf] by (split; reflexivity).
    rewrite Cd, Cf. simpl. destruct (covers inner x y); destruct (covers outer x y);
      repeat split; try reflexivity; try discriminate; intros H; discriminate H.
Qed.

(** X9. Where PIL accepts the calls of [create_head_and_body_mask], it
    accepts those of [create_full_head_mask] for the same arguments; the
    first draws the ellipse of the second and one more: what the full-head
    mask leaves editable, the head-and-body mask leaves editable. *)
Theorem head_and_body_mask_extends_full_head (S : Z)
    (head_region_size head_top_offset : option Z) (x y : Z) :
  let head := create_full_head_mask S head_region_size head_top_offset in
  let both := create_head_and_body_mask S head_region_size head_top_offset in
  drawable both ->
  drawable head
  /\ exists head_box body_box,
       ellipses head = [mkEllipse head_box transparent]
       /\ ellipses both
          = [mkEllipse head_box transparent; mkEllipse body_box transparent]
       /\ box_ok head_box /\ box_ok body_box
       /\ alpha_at covers both x y
          = (if covers head_box x y || covers body_box x y
             then transparent else opaque)
       /\ (alpha_at covers head x y = transparent ->
           alpha_at covers both x y = transparent).
Proof.
  intros head both Hd.
  assert (exists head_box body_box,
            ellipses head = [mkEllipse head_box transparent]
            /\ ellipses both
               = [mkEllipse head_box transparent;
                  mkEllipse body_box transparent]
            /\ mask_size head = mask_size both)
    as (head_box & body_box & Eh & Eb & Es).
  { subst head both. unfold create_full_head_mask, create_head_and_body_mask.
    eexists _, _. repeat split. }
  assert (box_ok head_box) as Hh.
  { apply (drawable_boxes both (mkEllipse head_box transparent) Hd).
    rewrite Eb. left. reflexivity. }
  assert (box_ok body_box) as Hb.
  { apply (drawable_boxes both (mkEllipse body_box transparent) Hd).
    rewrite Eb. right. left. reflexivity. }
  split.
  - split; [rewrite Es; apply Hd|]. rewrite Eh. repeat constructor. exact Hh.
  - exists head_box, body_box. split; [exact Eh|]. split; [exact Eb|].
    split; [exact Hh|]. split; [exact Hb|].
    unfold alpha_at. rewrite Eh, Eb.
    assert (canvas_alpha both = opaque /\ canvas_alpha head = opaque)
      as [Cb Ch] by (split; reflexivity).
    rewrite Cb, Ch.
    simpl. destruct (covers head_box x y); destruct (covers body_box x y);
      simpl; repeat split; auto; discriminate.
Qed.
End Masks.

Lemma safe_radius_mask_preserves_face_witness :
  drawable (create_face_mask 100 (Some 40) (Some 10))
  /\ ellipses (create_safe_radius_mask 100 (Some 40) (Some 10) lit_0_5)
     = [mkEllipse (10, -10, 90, 70) transparent;
        mkEllipse (30, 10, 70, 50) opaque]
  /\ alpha_at inscribed_ellipse
       (create_safe_radius_mask 100 (Some 40) (Some 10) lit_0_5) 50 30
     = opaque
  /\ alpha_at inscribed_ellipse
       (create_safe_radius_mask 100 (Some 40) (Some 10) lit_0_5) 15 30
     = transparent
  /\ alpha_at inscribed_ellipse (create_face_mask 100 (Some 40) (Some 10)) 15 30
     = opaque.
Proof.
  assert (drawable (create_safe_radius_mask 100 (Some 40) (Some 10) lit_0_5))
    as Hd.
  { split; [split; [discriminate | reflexivity]|].
    repeat constructor; discriminate. }
  destruct (safe_radius_mask_preserves_face inscribed_ellipse 100 (Some 40)
              (Some 10) lit_0_5 15 30 Hd)
    as (Hf & outer & inner & Ed & _ & _ & _ & _ & _ & Hring).
  split; [exact Hf|]. split; [reflexivity|]. split; [reflexivity|].
  split; [reflexivity|]. apply Hring. reflexivity.
Defined.

Lemma head_and_body_mask_extends_full_head_witness :
  drawable (create_full_head_mask 100 (Some 50) (Some 5))
  /\ ellipses (create_head_and_body_mask 100 (Some 50) (Some 5))
     = [mkEllipse (25, 5, 75, 55) transparent;
        mkEllipse (12, 45, 87, 75) transparent]
  /\ alpha_at inscribed_ellipse (create_full_head_mask 100 (Some 50) (Some 5))
       50 30
     = transparent
  /\ alpha_at inscribed_ellipse
       (create_head_and_body_mask 100 (Some 50) (Some 5)) 50 30
     = transparent.
Proof.
  assert (drawable (create_head_and_body_mask 100 (Some 50) (Some 5))) as Hd.
  { split; [split; [discriminate | reflexivity]|].
    repeat constructor; discriminate. }
  destruct (head_and_body_mask_extends_full_head inscribed_ellipse 100
              (Some 50) (Some 5) 50 30 Hd)
    as (Hh & head_box & body_box & _ & _ & _ & _ & _ & Hboth).
  split; [exact Hh|]. split; [reflexivity|]. split; [reflexivity|].
  apply Hboth. reflexivity.
Defined.

(** X10. For a side below 2^31 the ellipse of [create_full_head_mask] is
    the box computed with the integer quotients 13*S/20 and S/20; the boxes
    of the face, full-head and head-and-body masks lie inside the canvas,
    and those of the safe-radius mask have no corner past its opposite. *)
Theorem mask_boxes_well_formed (S : Z) :
  0 < S < 2 ^ 31 ->
  ellipses (create_full_head_mask S None None)
  = [mkEllipse ((S - 13 * S / 20) / 2, S / 20,
                (S - 13 * S / 20) / 2 + 13 * S / 20, S / 20 + 13 * S / 20)
       transparent]
  /\ Forall (fun e => within_canvas S (box e))
        (ellipses (create_face_mask S None None))
  /\ Forall (fun e => within_canvas S (box e))
        (ellipses (create_full_head_mask S None None))
  /\ Forall (fun e => within_canvas S (box e))
        (ellipses (create_head_and_body_mask S None None))
  /\ Forall (fun e => well_formed (box e))
        (ellipses (create_safe_radius_mask S None None lit_0_60)).
Proof.
  intros HS. change (2 ^ 31) with 2147483648 in HS.
  assert (0 <= 13 * S / 20 < 2 ^ 31) as Hh.
  { change (2 ^ 31) with 2147483648. Z.div_mod_to_equations. lia. }
  assert (0 <= int_mul (S / 2) lit_0_60) as He.
  { apply int_mul_nonneg; [|simpl; lia]. Z.div_mod_to_equations. lia. }
  assert (0 <= S < 2 ^ 31) as HS31 by (change (2 ^ 31) with 2147483648; lia).
  assert (0 <= S < 2 ^ 53) as HS53
    by (change (2 ^ 53) with 9007199254740992; lia).
  unfold create_face_mask, create_full_head_mask, create_head_and_body_mask,
    create_safe_radius_mask.
  rewrite (int_mul_half S HS53), (int_mul_fifth S HS31), (int_mul_0_65 S HS31),
    (int_mul_0_05 S HS31), (int_mul_0_75 S HS31),
    (int_mul_fifth (13 * S / 20) Hh).
  split; [reflexivity|].
  repeat split; repeat constructor; simpl; Z.div_mod_to_equations; lia.
Qed.

Lemma mask_boxes_well_formed_witness :
  ellipses (create_full_head_mask 1024 None None)
  = [mkEllipse ((1024 - 13 * 1024 / 20) / 2, 1024 / 20,
                (1024 - 13 * 1024 / 20) / 2 + 13 * 1024 / 20,
                1024 / 20 + 13 * 1024 / 20)%Z
       transparent]
  /\ Forall (fun e => within_canvas 1024 (box e))
       (ellipses (create_head_and_body_mask 1024 None None)).
Proof.
  destruct (mask_boxes_well_formed 1024) as (H1 & _ & _ & H4 & _);
    [split; reflexivity|].
  split; [exact H1 | exact H4].
Defined.

(** * Upload and serving *)

Local Open Scope nat_scope.
Local Open Scope string_scope.

Lemma after_last_dot_none (s : string) :
  after_last_dot s = None <-> dotless s.
Proof.
  induction s as [|c s IH]; simpl; [tauto|].
  destruct (after_last_dot s) as [e|].
  - split; [discriminate|]. intros [_ H]. apply IH in H. discriminate.
  - destruct (Ascii.eqb_spec c "."); split; try discriminate; try tauto.
Qed.

Lemma after_last_dot_some (s ext : string) :
  after_last_dot s = Some ext
  <-> exists stem, s = stem ++ "." ++ ext /\ dotless ext.
Proof.
  revert ext. induction s as [|c s IH]; intros ext; simpl.
  { split; [discriminate|]. intros ([|x stem] & H & _); discriminate H. }
  pose proof (after_last_dot_none s) as Hnone.
  destruct (after_last_dot s) as [e|].
  - split.
    + intros [= <-]. destruct (proj1 (IH e) eq_refl) as (stem & -> & Hd).
      exists (String c stem). split; [reflexivity | exact Hd].
    + intros ([|x stem] & H & Hd).
      * change ("" ++ "." ++ ext) with (String "." ext) in H.
        inversion H; subst. apply Hnone in Hd. discriminate Hd.
      * change (String x stem ++ "." ++ ext)
          with (String x (stem ++ "." ++ ext)) in H.
        inversion H; subst. apply IH. eauto.
  - assert (dotless s) as Hs by (apply Hnone; reflexivity).
    split.
    + destruct (Ascii.eqb_spec c ".") as [ -> | Hc ]; [|discriminate].
      intros [= <-]. exists "". split; [reflexivity | exact Hs].
    + intros ([|x stem] & H & Hd).
      * change ("" ++ "." ++ ext) with (String "." ext) in H.
        inversion H; subst. reflexivity.
      * change (String x stem ++ "." ++ ext)
          with (String x (stem ++ "." ++ ext)) in H.
        inversion H; subst. exfalso.
        assert (@None string = Some ext) as Hbad by (apply IH; eauto).
        discriminate Hbad.
Qed.

Lemma list_in_In (x : string) (l : list string) : list_in x l = true <-> In x l.
Proof.
  unfold list_in. rewrite existsb_exists. split.
  - intros (y & Hy & Heq). apply String.eqb_eq in Heq. subst. exact Hy.
  - intros H. exists x. split; [exact H | apply String.eqb_refl].
Qed.

(** X11. [allowed_file] accepts exactly the names with a dot whose text
    after the last dot is, up to letter case, one of the five extensions. *)
Theorem allowed_file_by_last_extension (filename : string) :
  allowed_file filename = true
  <-> exists stem ext,
        filename = stem ++ "." ++ ext
        /\ dotless ext
        /\ In (lower ext) ["png"; "jpg"; "jpeg"; "gif"; "webp"].
Proof.
  unfold allowed_file. split.
  - destruct (after_last_dot filename) as [ext|] eqn:He; [|discriminate].
    intros H. apply after_last_dot_some in He as (stem & -> & Hd).
    exists stem, ext. split; [reflexivity|]. split; [exact Hd|].
    apply list_in_In. exact H.
  - intros (stem & ext & -> & Hd & Hin).
    assert (after_last_dot (stem ++ "." ++ ext) = Some ext) as ->
      by (apply after_last_dot_some; eauto).
    apply list_in_In. exact Hin.
Qed.

(** The three ways [upload] ends. *)
Lemma upload_cases (db : Database) (current_user : option nat)
    (request : upload_request) (timestamp : string) :
  let result := upload db current_user request timestamp in
  (after result = mkSession db [] [] /\ threads result = []
   /\ reply result <> ToDashboard)
  \/ (exists uid filename file_data pipeline,
        current_user = Some uid
        /\ file request = Some (filename, file_data)
        /\ allowed_file filename = true
        /\ pipeline = default "gpt_only" (form_pipeline_type request)
        /\ pipeline <> "both"
        /\ result
           = mkResult ToDashboard
               (Some ("Image uploaded! Generation in progress.", "success"))
               (mkSession
                  (<[next_id db := new_row uid file_data None pipeline]> db)
                  [] [[next_id db]])
               [(next_id db, pipeline)])
  \/ (exists uid filename file_data,
        current_user = Some uid
        /\ file request = Some (filename, file_data)
        /\ allowed_file filename = true
        /\ form_pipeline_type request = Some "both"
        /\ let batch := Some (pretty uid ++ "_" ++ timestamp) in
           let row_1 := new_row uid file_data batch "dalle_gpt" in
           let row_2 := new_row uid file_data batch "gpt_only" in
           let id_1 := next_id db in
           let id_2 := next_id (<[id_1 := row_1]> db) in
           result
           = mkResult ToDashboard
               (Some ("Image uploaded! Both pipelines running simultaneously.",
                      "success"))
               (mkSession (<[id_2 := row_2]> (<[id_1 := row_1]> db)) []
                  [[id_1; id_2]])
               [(id_1, "dalle_gpt"); (id_2, "gpt_only")]).
Proof.
  intros result. subst result.
  destruct current_user as [uid|];
    [|left; repeat split; discriminate].
  destruct (String.eqb_spec (method request) "POST") as [Hm|Hm].
  2:{ left. unfold upload. apply String.eqb_neq in Hm. rewrite Hm.
      repeat split; discriminate. }
  destruct (file request) as [[filename file_data]|] eqn:Hf.
  2:{ left. unfold upload. rewrite Hm, Hf. repeat split; discriminate. }
  destruct (allowed_file filename) eqn:Ha.
  2:{ left. unfold upload. rewrite Hm, Hf. simpl.
      destruct filename; [repeat split; discriminate|].
      rewrite Ha. repeat split; discriminate. }
  destruct (String.eqb_spec (default "gpt_only" (form_pipeline_type request))
              "both") as [Hb|Hb].
  - right; right. exists uid, filename, file_data.
    assert (form_pipeline_type request = Some "both") as Hp.
    { destruct (form_pipeline_type request); simpl in Hb;
        [congruence | discriminate]. }
    repeat split; try assumption.
    apply (upload_both db uid request timestamp filename file_data Hm Hf Ha Hp).
  - right; left.
    exists uid, filename, file_data,
      (default "gpt_only" (form_pipeline_type request)).
    repeat split; try assumption.
    apply (upload_single db uid request timestamp filename file_data Hm Hf Ha Hb).
Qed.

Lemma insert_new_lookup (db : Database) (n j : nat) (row r' : GeneratedImage) :
  <[n := row]> db !! j = Some r' -> db !! j = None -> j = n /\ r' = row.
Proof.
  intros H Hn. destruct (decide (n = j)) as [ <- | Hne ].
  - rewrite lookup_insert_eq in H. inversion H. auto.
  - rewrite lookup_insert_ne in H by exact Hne. congruence.
Qed.

(** X12. [upload] leaves nothing pending and keeps every row; a row it adds
    belongs to the current user, holds the bytes of an allowed file, has
    status uploaded and no breed, error or generated picture, and has a
    thread started for it with its pipeline; every thread targets such a
    new row; and a reply other than the redirect to the dashboard means
    nothing was stored and no thread started. *)
Theorem upload_only_adds_own_rows (db : Database) (current_user : option nat)
    (request : upload_request) (timestamp : string) :
  let result := upload db current_user request timestamp in
  let db' := committed (after result) in
  pending (after result) = []
  /\ (forall j r, db !! j = Some r -> db' !! j = Some r)
  /\ (forall j r',
        db' !! j = Some r' -> db !! j = None ->
        current_user = Some (user_id r')
        /\ (exists filename,
              file request = Some (filename, original_image_data r')
              /\ allowed_file filename = true)
        /\ status r' = "uploaded"
        /\ breed_detected r' = None /\ error_message r' = None
        /\ image_1_data r' = None /\ image_2_data r' = None
        /\ final_dog_image_data r' = None
        /\ exists pipeline,
             pipeline_type r' = Some pipeline /\ In (j, pipeline) (threads result))
  /\ (forall j pipeline,
        In (j, pipeline) (threads result) ->
        db !! j = None
        /\ exists r', db' !! j = Some r' /\ pipeline_type r' = Some pipeline)
  /\ (reply result <> ToDashboard -> db' = db /\ threads result = []).
Proof.
  intros result db'. subst db' result.
  pose proof (upload_cases db current_user request timestamp) as Hc.
  cbv zeta in Hc.
  destruct Hc
    as [(Ha & Ht & Hr) | [(uid & fn & data & p & -> & Hf & Hal & Hp & Hb & Hres)
                         | (uid & fn & data & -> & Hf & Hal & Hp & Hres)]].
  - rewrite Ha, Ht. simpl.
    split; [reflexivity|]. split; [auto|].
    split; [intros j r' H1 H2; congruence|].
    split; [intros j pipeline []|]. auto.
  - rewrite Hres. simpl. clear Hres.
    pose proof (next_id_fresh db) as Hfresh.
    split; [reflexivity|].
    split; [intros j r Hj; rewrite lookup_insert_ne by congruence; exact Hj|].
    split; [|split].
    + intros j r' H1 H2.
      destruct (insert_new_lookup db _ j _ r' H1 H2) as [-> ->]. simpl.
      repeat split; eauto.
    + intros j pipeline [[= <- <-]|[]].
      split; [exact Hfresh|]. rewrite lookup_insert_eq. eauto.
    + intros Hne. contradiction.
  - rewrite Hres. simpl. clear Hres.
    set (batch := Some (pretty uid ++ "_" ++ timestamp)).
    set (row_1 := new_row uid data batch "dalle_gpt").
    set (row_2 := new_row uid data batch "gpt_only").
    set (id_1 := next_id db).
    set (id_2 := next_id (<[id_1 := row_1]> db)).
    pose proof (next_id_fresh db) as Hf1. fold id_1 in Hf1.
    pose proof (next_id_fresh (<[id_1 := row_1]> db)) as Hf2. fold id_2 in Hf2.
    assert (id_2 <> id_1) as Hne by apply next_id_insert.
    assert (db !! id_2 = None) as Hf2'
      by (rewrite lookup_insert_ne in Hf2 by auto; exact Hf2).
    split; [reflexivity|].
    split; [intros j r Hj; rewrite !lookup_insert_ne by congruence; exact Hj|].
    split; [|split].
    + intros j r' H1 H2.
      destruct (decide (j = id_1)) as [ -> | Hj1 ].
      * rewrite lookup_insert_ne, lookup_insert_eq in H1 by auto.
        inversion H1; subst r'. simpl. repeat split; eauto.
      * assert (<[id_1:=row_1]> db !! j = None) as H2'
          by (rewrite lookup_insert_ne by auto; exact H2).
        destruct (insert_new_lookup _ _ j _ r' H1 H2') as [-> ->]. simpl.
        repeat split; eauto 6.
    + intros j pipeline [[= <- <-]|[[= <- <-]|[]]].
      * split; [exact Hf1|].
        rewrite lookup_insert_ne, lookup_insert_eq by auto. eauto.
      * split; [exact Hf2'|]. rewrite lookup_insert_eq. eauto.
    + intros Habs. contradiction.
Qed.

Lemma serve_image_row (db : Database) (uid image_id : nat) (r : GeneratedImage) :
  db !! image_id = Some r -> user_id r = uid ->
  serve_image db (Some uid) image_id "original"
  = served (original_image_data r)
  /\ serve_image db (Some uid) image_id "transition1"
     = served (default [] (image_1_data r))
  /\ serve_image db (Some uid) image_id "transition2"
     = served (default [] (image_2_data r))
  /\ serve_image db (Some uid) image_id "final"
     = served (default [] (final_dog_image_data r)).
Proof.
  intros Hr Hu.
  rewrite !(serve_image_own db uid image_id _ r Hr Hu). simpl.
  repeat split.
  - by destruct (original_image_data r).
  - by destruct (image_1_data r) as [[|]|].
  - by destruct (image_2_data r) as [[|]|].
  - by destruct (final_dog_image_data r) as [[|]|].
Qed.

(** X13. Right after [upload], [serve_image] answers the uploader with the
    uploaded bytes for original, with Image not found for the three
    generated slots, and anyone else with Unauthorized access. *)
Theorem uploaded_original_is_served (db : Database) (uid : nat)
    (request : upload_request) (timestamp : string) (j : nat)
    (pipeline : string) :
  let result := upload db (Some uid) request timestamp in
  let db' := committed (after result) in
  In (j, pipeline) (threads result) ->
  exists filename file_data,
    file request = Some (filename, file_data)
    /\ serve_image db' (Some uid) j "original" = served file_data
    /\ serve_image db' (Some uid) j "transition1"
       = DashboardRedirect "Image not found" "error"
    /\ serve_image db' (Some uid) j "transition2"
       = DashboardRedirect "Image not found" "error"
    /\ serve_image db' (Some uid) j "final"
       = DashboardRedirect "Image not found" "error"
    /\ (forall other slot,
          other <> uid ->
          serve_image db' (Some other) j slot
          = DashboardRedirect "Unauthorized access" "error").
Proof.
  intros result db' Hin. subst db' result.
  pose proof (upload_cases db (Some uid) request timestamp) as Hc.
  cbv zeta in Hc.
  assert (exists filename file_data r,
            file request = Some (filename, file_data)
            /\ committed (after (upload db (Some uid) request timestamp)) !! j
               = Some r
            /\ user_id r = uid /\ original_image_data r = file_data
            /\ image_1_data r = None /\ image_2_data r = None
            /\ final_dog_image_data r = None) as (fn & data & r & Hf & Hr & Hu
                                                   & Ho & H1 & H2 & H3).
  { destruct Hc
      as [(Ha & Ht & Hr) | [(u & fn & data & p & Hu & Hf & Hal & Hp & Hb & Hres)
                           | (u & fn & data & Hu & Hf & Hal & Hp & Hres)]].
    - rewrite Ht in Hin. destruct Hin.
    - inversion Hu; subst u. rewrite Hres in Hin |- *. simpl in Hin |- *.
      destruct Hin as [[= <- <-]|[]].
      exists fn, data, (new_row uid data None p).
      rewrite lookup_insert_eq. repeat split; auto.
    - inversion Hu; subst u. rewrite Hres in Hin |- *. simpl in Hin |- *.
      assert (next_id (<[next_id db:=new_row uid data
                (Some (pretty uid ++ "_" ++ timestamp)) "dalle_gpt"]> db)
              <> next_id db) as Hne by apply next_id_insert.
      destruct Hin as [[= <- <-]|[[= <- <-]|[]]].
      + eexists fn, data, _.
        rewrite lookup_insert_ne, lookup_insert_eq by exact Hne.
        repeat split; auto.
      + eexists fn, data, _. rewrite lookup_insert_eq. repeat split; auto. }
  exists fn, data. split; [exact Hf|].
  destruct (serve_image_row _ uid j r Hr Hu) as (S0 & S1 & S2 & S3).
  rewrite Ho in S0. rewrite H1 in S1. rewrite H2 in S2. rewrite H3 in S3.
  repeat split; try assumption.
  intros other slot Hne. apply serve_image_foreign with r; [exact Hr|].
  congruence.
Qed.

Lemma uploaded_original_is_served_witness :
  let db' :=
    committed (after (upload uploaded_db (Some 7) both_request
                        "20260101_120000")) in
  serve_image db' (Some 7) 2 "original" = served sample_png
  /\ serve_image db' (Some 7) 2 "final"
     = DashboardRedirect "Image not found" "error"
  /\ serve_image db' (Some 8) 2 "original"
     = DashboardRedirect "Unauthorized access" "error".
Proof.
  destruct (uploaded_original_is_served uploaded_db 7 both_request
              "20260101_120000" 2 "dalle_gpt")
    as (filename & file_data & Hf & Ho & _ & _ & Hfin & Hother);
    [left; reflexivity|].
  injection Hf as _ <-.
  split; [exact Ho|]. split; [exact Hfin|].
  apply Hother. discriminate.
Defined.

Lemma process_row_completed (env : Env) (db : Database) (image_id : nat)
    (pipeline : string) (r : GeneratedImage) (key d : string)
    (imgs : transformation_images) :
  db !! image_id = Some r ->
  detect_dog_breed env (original_image_data r) = Return (key, d) ->
  generate_transformation_images env (original_image_data r) d (Some key)
    pipeline = Return imgs ->
  process_image_generation env image_id pipeline db !! image_id
  = Some (mkGeneratedImage (user_id r) (original_image_data r) (Some key)
            "completed" (error_message r) (Some (image_1 imgs))
            (Some (image_2 imgs)) (Some (final imgs)) (batch_id r)
            (pipeline_type r)).
Proof.
  intros Hr Hd Hg.
  rewrite (process_image_generation_row env image_id pipeline db r Hr).
  unfold job_commits. rewrite Hd, Hg. reflexivity.
Qed.

(** X14. After a run of [process_image_generation] whose generation
    returned, [serve_image] answers the owner with the original and the
    three generated pictures under their four slot names, and anyone else
    with Unauthorized access. *)
Theorem completed_job_is_served (env : Env) (db : Database) (image_id : nat)
    (pipeline : string) (r : GeneratedImage) (key d : string)
    (imgs : transformation_images) :
  db !! image_id = Some r ->
  detect_dog_breed env (original_image_data r) = Return (key, d) ->
  generate_transformation_images env (original_image_data r) d (Some key)
    pipeline = Return imgs ->
  let db' := process_image_generation env image_id pipeline db in
  let owner := Some (user_id r) in
  serve_image db' owner image_id "original" = served (original_image_data r)
  /\ serve_image db' owner image_id "transition1" = served (image_1 imgs)
  /\ serve_image db' owner image_id "transition2" = served (image_2 imgs)
  /\ serve_image db' owner image_id "final" = served (final imgs)
  /\ (forall other slot,
        other <> user_id r ->
        serve_image db' (Some other) image_id slot
        = DashboardRedirect "Unauthorized access" "error").
Proof.
  intros Hr Hd Hg db' owner. subst db' owner.
  pose proof (process_row_completed env db image_id pipeline r key d imgs
                Hr Hd Hg) as Hrow.
  destruct (serve_image_row _ (user_id r) image_id _ Hrow eq_refl)
    as (S0 & S1 & S2 & S3).
  repeat split; try assumption.
  intros other slot Hne. eapply serve_image_foreign; [exact Hrow|].
  simpl. congruence.
Qed.

Lemma completed_job_is_served_witness :
  let db' := process_image_generation complete_env 1 "gpt_only" uploaded_db in
  serve_image db' (Some 7) 1 "original" = served sample_png
  /\ serve_image db' (Some 7) 1 "transition1" = served stage2_bytes
  /\ serve_image db' (Some 7) 1 "transition2" = served stage2_bytes
  /\ serve_image db' (Some 7) 1 "final" = served stage2_bytes.
Proof.
  destruct (completed_job_is_served complete_env uploaded_db 1 "gpt_only"
              uploaded_row "beagle" "friendly and curious Beagle"
              complete_images)
    as (H0 & H1 & H2 & H3 & _); [reflexivity | reflexivity | reflexivity |].
  split; [exact H0|]. split; [exact H1|]. split; [exact H2 | exact H3].
Defined.

(** * Breed names *)

Local Open Scope nat_scope.
Local Open Scope string_scope.

(** X15. Every name the classifier prompt offers parses back to its key:
    a key of [DOG_BREEDS] as it stands, in title case with spaces, and
    either of them inside the JSON object; and every synonym of
    [breed_mapping] parses to the key it is mapped to. *)
Theorem offered_names_parse_back (env : Env) :
  (forall key,
     In key (dict_keys DOG_BREEDS) ->
     select_breed env key = Return key
     /\ select_breed env (title (replace_char "_" " " key)) = Return key
     /\ select_breed env (breed_object key) = Return key
     /\ select_breed env (breed_object (title (replace_char "_" " " key)))
        = Return key)
  /\ (forall variant key,
        In (variant, key) breed_mapping ->
        select_breed env variant = Return key
        /\ select_breed env (breed_object variant) = Return key).
Proof.
  split.
  - intros key H. simpl in H.
    repeat (destruct H as [<-|H]; [repeat split; vm_compute; reflexivity|]).
    contradiction.
  - intros variant key H. simpl in H.
    repeat (destruct H as [[= <- <-]|H];
            [repeat split; vm_compute; reflexivity|]).
    contradiction.
Qed.




(** ** Whole-word search *)

Lemma re_search_from_split (ic : bool) (r : list atom) (s : string) :
  forall prev,
    found (re_search_from ic r prev s) = true ->
    exists pre rest,
      s = pre ++ rest
      /\ found (re_match ic r (last_before prev pre) rest false EmptyString)
         = true.
Proof.
  induction s as [|c s IH]; intros prev H; simpl in H.
  - exists "", "". split; [reflexivity|]. simpl.
    destruct (re_match ic r prev "" false ""); [reflexivity | discriminate].
  - destruct (re_match ic r prev (String c s) false "") eqn:Hm.
    + exists "", (String c s). split; [reflexivity|]. simpl. by rewrite Hm.
    + destruct (IH (Some c) H) as (pre & rest & -> & Hr).
      exists (String c pre), rest. split; [reflexivity | exact Hr].
Qed.

Lemma re_match_one (ic : bool) (c : cls) (r : list atom) (prev : option ascii)
    (s : string) (on : bool) (acc : string) :
  re_match ic (One c :: r) prev s on acc
  = match s with
    | String x s' =>
        if cls_match ic c x then re_match ic r (Some x) s' on (record on acc x)
        else None
    | EmptyString => None
    end.
Proof. reflexivity. Qed.

Lemma re_match_bound (ic : bool) (r : list atom) (prev : option ascii)
    (s : string) (on : bool) (acc : string) :
  re_match ic (Bound :: r) prev s on acc
  = if at_boundary prev s then re_match ic r prev s on acc else None.
Proof. reflexivity. Qed.

Lemma re_match_literal (ic : bool) (k : string) (r : list atom) :
  forall prev s acc g,
    re_match ic (re_escape k ++ r) prev s false acc = Some g
    <-> exists k' post,
          s = k' ++ post /\ same_text ic k k'
          /\ re_match ic r (last_before prev k') post false acc = Some g.
Proof.
  induction k as [|c k IH]; intros prev s acc g.
  - simpl. split.
    + intros H. exists "", s. repeat split. exact H.
    + intros ([|x k'] & post & -> & Hs & H); [exact H | destruct Hs].
  - change (re_escape (String c k) ++ r)%list
      with (One (CChar c) :: (re_escape k ++ r))%list.
    rewrite re_match_one. split.
    + destruct s as [|x s]; [discriminate|].
      destruct (cls_match ic (CChar c) x) eqn:Hc; [|discriminate].
      unfold record. intros H. apply IH in H as (k' & post & -> & Hs & H).
      exists (String x k'), post. repeat split; assumption.
    + intros ([|x k'] & post & -> & Hs & H); [destruct Hs|].
      destruct Hs as [Hc Hs].
      change (String x k' ++ post) with (String x (k' ++ post)).
      cbv iota. rewrite Hc. unfold record. apply IH. eauto.
Qed.

Lemma is_word_lower_char (c : ascii) : is_word (lower_char c) = is_word c.
Proof. destruct c as [[] [] [] [] [] [] [] []]; reflexivity. Qed.

Lemma cls_match_is_word (ic : bool) (c x : ascii) :
  cls_match ic (CChar c) x = true -> is_word x = is_word c.
Proof.
  unfold cls_match. destruct ic; intros H.
  - apply Ascii.eqb_eq in H.
    rewrite <- (is_word_lower_char x), <- (is_word_lower_char c). by rewrite H.
  - apply Ascii.eqb_eq in H. by subst.
Qed.

Lemma same_text_word_after (ic : bool) (k k' post : string) :
  same_text ic k k' -> k <> EmptyString ->
  word_after (k' ++ post) = word_after k.
Proof.
  destruct k as [|c k], k' as [|x k']; simpl; try tauto.
  intros [Hc _] _. apply (cls_match_is_word ic c x Hc).
Qed.

Lemma same_text_last (ic : bool) (k : string) :
  forall k' p p',
    same_text ic k k' -> k <> EmptyString ->
    word_before (last_before p' k') = word_before (last_before p k).
Proof.
  induction k as [|c k IH]; intros k' p p' Hs Hne; [contradiction|].
  destruct k' as [|x k']; [destruct Hs|]. destruct Hs as [Hc Hs]. simpl.
  destruct k as [|c2 k].
  - destruct k'; [|destruct Hs]. simpl. apply (cls_match_is_word ic c x Hc).
  - apply IH; [exact Hs | discriminate].
Qed.

Lemma word_pattern_finds_whole_words (ic : bool) (k s : string) :
  word_after k = true ->
  word_before (last_before None k) = true ->
  found (re_search ic (word_pattern k) s) = true
  <-> exists pre k' post, same_text ic k k' /\ whole_word_at s pre k' post.
Proof.
  intros Hfirst Hlast.
  assert (k <> EmptyString) as Hne by (intros ->; discriminate).
  assert (forall prev rest g,
            re_match ic (word_pattern k) prev rest false "" = Some g
            <-> exists k' post,
                  rest = k' ++ post /\ same_text ic k k'
                  /\ word_before prev = false /\ word_after post = false
                  /\ g = "") as Hat.
  { intros prev rest g. unfold word_pattern. rewrite re_match_bound. split.
    - destruct (at_boundary prev rest) eqn:Hb; [|discriminate].
      intros H. apply re_match_literal in H as (k' & post & -> & Hs & H).
      rewrite re_match_bound in H.
      destruct (at_boundary _ post) eqn:Hb2; [|discriminate].
      simpl in H.
      inversion H; subst g. exists k', post.
      unfold at_boundary in Hb, Hb2.
      rewrite (same_text_word_after ic k k' post Hs Hne), Hfirst in Hb.
      rewrite (same_text_last ic k k' None prev Hs Hne), Hlast in Hb2.
      repeat split; auto.
      + by destruct (word_before prev).
      + by destruct (word_after post).
    - intros (k' & post & -> & Hs & Hp & Hq & ->).
      unfold at_boundary at 1.
      rewrite (same_text_word_after ic k k' post Hs Hne), Hfirst, Hp. simpl.
      apply re_match_literal. exists k', post. repeat split; auto.
      rewrite re_match_bound. unfold at_boundary.
      rewrite (same_text_last ic k k' None prev Hs Hne), Hlast, Hq.
      reflexivity. }
  unfold re_search. split.
  - intros H. apply re_search_from_split in H as (pre & rest & -> & H).
    destruct (re_match ic (word_pattern k) (last_before None pre) rest false "")
      as [g|] eqn:Hm; [|discriminate].
    apply Hat in Hm as (k' & post & -> & Hs & Hp & Hq & _).
    exists pre, k', post. split; [exact Hs|]. repeat split; assumption.
  - intros (pre & k' & post & Hs & -> & Hp & Hq).
    apply re_search_from_later, re_search_from_here.
    assert (re_match ic (word_pattern k) (last_before None pre) (k' ++ post)
              false "" = Some "") as ->; [|reflexivity].
    apply Hat. exists k', post. repeat split; assumption.
Qed.

Lemma same_text_exact (k k' : string) : same_text false k k' <-> k' = k.
Proof.
  revert k'. induction k as [|c k IH]; intros [|x k']; simpl;
    try (split; [tauto | discriminate]); [tauto|].
  rewrite IH. split.
  - intros [Hc ->]. apply Ascii.eqb_eq in Hc. by subst.
  - intros [= -> ->]. split; [apply Ascii.eqb_refl | reflexivity].
Qed.

Lemma same_text_folded (k k' : string) :
  same_text true k k' <-> lower k' = lower k.
Proof.
  revert k'. induction k as [|c k IH]; intros [|x k']; simpl;
    try (split; [tauto | discriminate]); [tauto|].
  rewrite IH. split.
  - intros [Hc ->]. apply Ascii.eqb_eq in Hc. by rewrite Hc.
  - intros [= Hc ->]. split; [|reflexivity]. rewrite Hc. apply Ascii.eqb_refl.
Qed.

Lemma key_hit_occurs (key r : string) :
  wordy key -> wordy (replace_char "_" " " key) ->
  found (re_search false (word_pattern key) r)
  || found (re_search true (word_pattern (replace_char "_" " " key)) r) = true
  <-> key_occurs key r.
Proof.
  intros [H1 H2] [H3 H4]. rewrite orb_true_iff.
  rewrite (word_pattern_finds_whole_words false key r H1 H2).
  rewrite (word_pattern_finds_whole_words true _ r H3 H4).
  unfold key_occurs. split.
  - intros [(pre & k' & post & Hs & Hw) | (pre & k' & post & Hs & Hw)];
      exists pre, k', post; (split; [exact Hw|]).
    + left. apply same_text_exact. exact Hs.
    + right. apply same_text_folded. exact Hs.
  - intros (pre & k' & post & Hw & [Hk | Hk]).
    + left. exists pre, k', post. split; [|exact Hw].
      apply same_text_exact. exact Hk.
    + right. exists pre, k', post. split; [|exact Hw].
      apply same_text_folded. exact Hk.
Qed.

Lemma variant_hit_occurs (variant r : string) :
  wordy variant ->
  found (re_search true (word_pattern variant) r) = true
  <-> variant_occurs variant r.
Proof.
  intros [H1 H2].
  rewrite (word_pattern_finds_whole_words true variant r H1 H2).
  unfold variant_occurs. split.
  - intros (pre & k' & post & Hs & Hw). exists pre, k', post.
    split; [exact Hw|]. apply same_text_folded. exact Hs.
  - intros (pre & k' & post & Hw & Hk). exists pre, k', post.
    split; [|exact Hw]. apply same_text_folded. exact Hk.
Qed.

Lemma direct_key_step_first (keys : list string) (r key : string) :
  Forall (fun k => wordy k /\ wordy (replace_char "_" " " k)) keys ->
  direct_key_step keys r = Some key
  <-> exists l1 l2,
        keys = (l1 ++ key :: l2)%list
        /\ key_occurs key r
        /\ Forall (fun k0 => ~ key_occurs k0 r) l1.
Proof.
  induction 1 as [|k keys [Hk1 Hk2] Hall IH]; simpl.
  - split; [discriminate|]. intros ([|] & l2 & H & _); discriminate H.
  - pose proof (key_hit_occurs k r Hk1 Hk2) as Hhit.
    destruct (found (re_search false (word_pattern k) r)) eqn:Ha;
      [|destruct (found (re_search true _ r)) eqn:Hb]; simpl in Hhit.
    1,2: split;
      [ intros [= <-]; exists [], keys; repeat split; auto;
        apply Hhit; reflexivity
      | intros ([|k0 l1] & l2 & Heq & Ho & Hno);
        [ simpl in Heq; congruence
        | simpl in Heq; inversion Heq; subst; inversion Hno; subst;
          exfalso; apply H1, Hhit; reflexivity ] ].
    rewrite IH. split.
    + intros (l1 & l2 & -> & Ho & Hno). exists (k :: l1), l2.
      repeat split; auto. constructor; [|exact Hno].
      intros Hk. apply Hhit in Hk. discriminate.
    + intros ([|k0 l1] & l2 & Heq & Ho & Hno); simpl in Heq;
        inversion Heq; subst.
      * apply Hhit in Ho. discriminate.
      * inversion Hno; subst. eauto.
Qed.

Lemma mapping_step_first (items : list (string * string)) (r key : string) :
  Forall (fun p => wordy (fst p)) items ->
  mapping_step items r = Some key
  <-> exists l1 variant l2,
        items = (l1 ++ (variant, key) :: l2)%list
        /\ variant_occurs variant r
        /\ Forall (fun p => ~ variant_occurs (fst p) r) l1.
Proof.
  induction 1 as [|[v k] items Hv Hall IH]; simpl.
  - split; [discriminate|]. intros ([|] & v & l2 & H & _); discriminate H.
  - simpl in Hv. pose proof (variant_hit_occurs v r Hv) as Hhit.
    destruct (found (re_search true (word_pattern v) r)) eqn:Ha.
    + split.
      * intros [= <-]. exists [], v, items. repeat split; auto.
        apply Hhit. reflexivity.
      * intros ([|p l1] & v' & l2 & Heq & Ho & Hno); simpl in Heq.
        -- inversion Heq; subst. reflexivity.
        -- inversion Heq; subst. inversion Hno; subst. exfalso.
           simpl in *. apply H1, Hhit. reflexivity.
    + rewrite IH. split.
      * intros (l1 & v' & l2 & -> & Ho & Hno). exists ((v, k) :: l1), v', l2.
        repeat split; auto. constructor; [|exact Hno].
        simpl. intros Hk. apply Hhit in Hk. discriminate.
      * intros ([|p l1] & v' & l2 & Heq & Ho & Hno); simpl in Heq.
        -- inversion Heq; subst. apply Hhit in Ho. discriminate.
        -- inversion Heq; subst. inversion Hno; subst.
           exists l1, v', l2. auto.
Qed.

(** X17. The loop over the keys of [DOG_BREEDS] returns the first key, in
    the order of the dictionary, that stands in the response as a whole
    word, literally or with spaces for underscores up to letter case, and
    nothing when no key does. *)
Theorem key_loop_finds_first_whole_word (r key : string) :
  direct_key_step (dict_keys DOG_BREEDS) r = Some key
  <-> exists l1 l2,
        dict_keys DOG_BREEDS = (l1 ++ key :: l2)%list
        /\ key_occurs key r
        /\ Forall (fun k0 => ~ key_occurs k0 r) l1.
Proof.
  apply direct_key_step_first.
  repeat constructor.
Qed.

(** X18. The loop over [breed_mapping] returns the key of the first
    synonym, in the order of the mapping, that stands in the response as a
    whole word up to letter case, and nothing when no synonym does. *)
Theorem synonym_loop_finds_first_whole_word (r key : string) :
  mapping_step breed_mapping r = Some key
  <-> exists l1 variant l2,
        breed_mapping = (l1 ++ (variant, key) :: l2)%list
        /\ variant_occurs variant r
        /\ Forall (fun p => ~ variant_occurs (fst p) r) l1.
Proof.
  apply mapping_step_first.
  repeat constructor.
Qed.

(** * The order of the parsing steps *)

Local Open Scope nat_scope.
Local Open Scope string_scope.




























(** * Progress *)

Local Open Scope nat_scope.
Local Open Scope string_scope.

(** X19. [get_progress_percent] lies between 0 and 100 for every status,
    also one outside the table; it is 100 exactly for completed, and above
    0 exactly for the four running statuses and completed. *)
Theorem get_progress_percent_range (r : GeneratedImage) :
  let p := get_progress_percent r in
  (0 <= p)%Q /\ (p <= 100)%Q
  /\ (p == 100 <-> status r = "completed")%Q
  /\ ((0 < p)%Q <->
      In (status r)
        ["detecting"; "generating_1"; "generating_2"; "generating_final";
         "completed"]).
Proof.
  intros p. subst p. unfold get_progress_percent, status_map. simpl dict_get.
  repeat match goal with
         | |- context [String.eqb (status r) ?k] =>
             destruct (String.eqb_spec (status r) k) as [ -> | ? ]
         end; simpl default.
  all: repeat split; try (unfold Qle, Qlt, Qeq; simpl; lia).
  all: try (intros H; discriminate H).
  all: try (intros _; simpl; tauto).
  all: try (unfold Qeq; simpl; intros H; (discriminate H || lia)).
  all: try (unfold Qlt; simpl; intros H; lia).
  all: try (intros H; congruence).
  all: try (simpl; intros H; intuition congruence).
Qed.

(** * Dashboard *)

Local Open Scope nat_scope.
Local Open Scope string_scope.
Local Open Scope nat_scope.
Local Open Scope list_scope.

Lemma dict_get_dict_append (b : string) (x : listed) d k :
  dict_get (dict_append b x d) k
  = if String.eqb k b then Some (default [] (dict_get d b) ++ [x])
    else dict_get d k.
Proof.
  induction d as [|[k' l] d IH]; simpl.
  - destruct (String.eqb_spec k b); reflexivity.
  - destruct (String.eqb_spec k' b) as [->|Hkb]; simpl.
    + rewrite String.eqb_refl.
      destruct (String.eqb_spec k b); reflexivity.
    + destruct (String.eqb_spec k k') as [Hkk|Hkk].
      * subst k. destruct (String.eqb_spec k' b); [contradiction|reflexivity].
      * rewrite IH.
        destruct (String.eqb_spec k b) as [Heq|]; [|reflexivity].
        destruct (String.eqb_spec b k'); [congruence|reflexivity].
Qed.

Lemma dict_append_keys (b : string) (x : listed) d k :
  k ∈ (dict_append b x d).*1 <-> k = b \/ k ∈ d.*1.
Proof.
  induction d as [|[k' l] d IH]; simpl.
  - rewrite list_elem_of_singleton, elem_of_nil. tauto.
  - destruct (String.eqb_spec k' b) as [->|Hkb]; simpl.
    + rewrite !elem_of_cons. tauto.
    + rewrite !elem_of_cons, IH. tauto.
Qed.

Lemma dict_append_NoDup (b : string) (x : listed) d :
  NoDup d.*1 -> NoDup (dict_append b x d).*1.
Proof.
  induction d as [|[k' l] d IH]; simpl; intros Hd.
  - apply NoDup_singleton.
  - apply NoDup_cons in Hd as [Hk Hd].
    destruct (String.eqb_spec k' b) as [->|Hkb]; simpl.
    + apply NoDup_cons; auto.
    + apply NoDup_cons; split; [|auto].
      rewrite dict_append_keys. intros [?|?]; [congruence|contradiction].
Qed.

Lemma dict_append_perm (b : string) (x : listed) d :
  concat (dict_append b x d).*2 ≡ₚ x :: concat d.*2.
Proof.
  induction d as [|[k' l] d IH]; simpl.
  - reflexivity.
  - destruct (String.eqb_spec k' b) as [->|Hkb]; simpl.
    + rewrite <- app_assoc. simpl.
      rewrite <- Permutation_middle. reflexivity.
    + rewrite IH. rewrite <- Permutation_middle. reflexivity.
Qed.

Lemma dict_get_elem (d : list (string * list listed)) k l :
  NoDup d.*1 -> (k, l) ∈ d -> dict_get d k = Some l.
Proof.
  induction d as [|[k' l'] d IH]; simpl; intros Hd Hin.
  - inversion Hin.
  - apply NoDup_cons in Hd as [Hk Hd].
    apply elem_of_cons in Hin as [Heq|Hin].
    + inversion Heq; subst. rewrite String.eqb_refl. reflexivity.
    + destruct (String.eqb_spec k k') as [Hkk|Hkk]; [|auto].
      subst k. exfalso. apply Hk. apply list_elem_of_fmap. exists (k', l). auto.
Qed.

Lemma fold_left_snoc {A B} (f : A -> B -> A) l x a :
  fold_left f (l ++ [x]) a = f (fold_left f l a) x.
Proof. rewrite fold_left_app. reflexivity. Qed.

Lemma in_batch_batched b x : in_batch b x = true -> batched x = true.
Proof.
  unfold in_batch, batched.
  destruct (batch_id (l_image x)) as [[|c r]|]; auto.
Qed.

Lemma grouped_snoc b l x :
  grouped b (l ++ [x]) = grouped b l ++ (if in_batch b x then [x] else []).
Proof. unfold grouped. rewrite List.filter_app. reflexivity. Qed.

(** What the first loop of [dashboard] leaves. *)
Lemma group_image_fold (user_images : list listed) :
  let '(d, s) := fold_left group_image user_images ([], []) in
  (forall k, dict_get d k
     = match grouped k user_images with [] => None | l => Some l end)
  /\ s = List.filter (fun x => negb (batched x)) user_images
  /\ NoDup d.*1
  /\ concat d.*2 ++ s ≡ₚ user_images.
Proof.
  induction user_images as [|x l IH] using rev_ind.
  - simpl. repeat split; auto using NoDup_nil_2.
  - rewrite fold_left_snoc.
    destruct (fold_left group_image l ([], [])) as [d s].
    destruct IH as (Hget & Hs & Hnd & Hperm).
    unfold group_image.
    destruct (batch_id (l_image x)) as [[|c r]|] eqn:Hb.
    + repeat split; auto.
      * intros k. rewrite grouped_snoc, Hget.
        unfold in_batch. rewrite Hb. rewrite app_nil_r. reflexivity.
      * rewrite List.filter_app, <- Hs. simpl. unfold batched. rewrite Hb.
        reflexivity.
      * rewrite app_assoc, Hperm. reflexivity.
    + repeat split.
      * intros k. rewrite grouped_snoc, dict_get_dict_append.
        unfold in_batch. rewrite Hb.
        rewrite (String.eqb_sym k).
        destruct (String.eqb_spec (String c r) k) as [<-|Hne].
        -- rewrite Hget.
           destruct (grouped (String c r) l); reflexivity.
        -- rewrite Hget, app_nil_r. reflexivity.
      * rewrite List.filter_app, <- Hs. simpl. unfold batched. rewrite Hb.
        simpl. rewrite app_nil_r. reflexivity.
      * apply dict_append_NoDup, Hnd.
      * rewrite dict_append_perm. simpl.
        rewrite Permutation_app_comm with (l' := [x]). simpl.
        rewrite Hperm. reflexivity.
    + repeat split; auto.
      * intros k. rewrite grouped_snoc, Hget.
        unfold in_batch. rewrite Hb. rewrite app_nil_r. reflexivity.
      * rewrite List.filter_app, <- Hs. simpl. unfold batched. rewrite Hb.
        reflexivity.
      * rewrite app_assoc, Hperm. reflexivity.
Qed.

Lemma str_lt_asym a b : str_lt a b = true -> str_lt b a = false.
Proof.
  unfold str_lt. rewrite (String.compare_antisym a b).
  destruct (String.compare b a); simpl; congruence.
Qed.

Lemma pair_up_cases (pl : list pair) (s : list listed) k (l : list listed) :
  (exists a b p, l = [a; b] /\ pair_up (pl, s) (k, l) = (pl ++ [p], s)
     /\ p_batch_id p = k /\ [p_image_1 p; p_image_2 p] ≡ₚ [a; b]
     /\ str_lt (pipeline_key (p_image_2 p)) (pipeline_key (p_image_1 p)) = false
     /\ p_created_at p = l_created_at (p_image_1 p))
  \/ (length l <> 2 /\ pair_up (pl, s) (k, l) = (pl, s ++ l)).
Proof.
  destruct l as [|a [|b [|c l]]]; simpl; try (right; split; [lia|reflexivity]).
  left.
  destruct (str_lt (pipeline_key b) (pipeline_key a)) eqn:Hlt.
  - exists a, b, (mkPair k b a (l_created_at b)). simpl.
    repeat split; auto using str_lt_asym. apply perm_swap.
  - exists a, b, (mkPair k a b (l_created_at a)). simpl.
    repeat split; auto.
Qed.

Lemma pair_up_fold (d : list (string * list listed)) :
  forall pl s, exists pl' s',
    fold_left pair_up d (pl, s) = (pl ++ pl', s ++ s')
    /\ (p_batch_id <$> pl') `sublist_of` d.*1
    /\ concat (item_images ∘ Paired <$> pl') ++ s' ≡ₚ concat d.*2
    /\ Forall (pair_ok d) pl'
    /\ Forall (leftover_ok d) s'.
Proof.
  induction d as [|[k l] d IH]; intros pl s.
  - exists [], []. simpl. rewrite !app_nil_r.
    repeat split; auto. 
  - change (fold_left pair_up ((k, l) :: d) (pl, s))
      with (fold_left pair_up d (pair_up (pl, s) (k, l))).
    assert (Hmono_p : forall p, pair_ok d p -> pair_ok ((k, l) :: d) p).
    { intros p ((a & b & Hin & Hp) & H2 & H3). split; [|auto].
      exists a, b. split; [right; exact Hin|exact Hp]. }
    assert (Hmono_s : forall x, leftover_ok d x -> leftover_ok ((k, l) :: d) x).
    { intros x (k' & l' & Hin & Hx & Hlen). exists k', l'.
      split; [right; exact Hin|auto]. }
    destruct (pair_up_cases pl s k l)
      as [(a & b & p & -> & -> & Hk & Hp & Hlt & Hc)|(Hlen & ->)].
    + destruct (IH (pl ++ [p]) s) as (pl' & s' & -> & Hsub & Hperm & Hps & Hss).
      exists (p :: pl'), s'. rewrite <- app_assoc. simpl.
      split; [reflexivity|]. split; [|split; [|split]].
      * rewrite Hk. apply sublist_skip, Hsub.
      * change (p_image_1 p :: p_image_2 p
                  :: concat (item_images ∘ Paired <$> pl') ++ s'
                ≡ₚ a :: b :: concat d.*2).
        rewrite Hperm.
        change ([p_image_1 p; p_image_2 p] ++ concat d.*2
                ≡ₚ [a; b] ++ concat d.*2).
        rewrite Hp. reflexivity.
      * apply Forall_cons; split.
        -- split; [|auto]. exists a, b. rewrite Hk. split; [left|exact Hp].
        -- eapply Forall_impl; [exact Hps|exact Hmono_p].
      * eapply Forall_impl; [exact Hss|exact Hmono_s].
    + destruct (IH pl (s ++ l)) as (pl' & s' & -> & Hsub & Hperm & Hps & Hss).
      exists pl', (l ++ s'). rewrite <- app_assoc.
      split; [reflexivity|]. split; [|split; [|split]].
      * apply sublist_cons, Hsub.
      * simpl. rewrite <- Hperm.
        rewrite !app_assoc.
        apply Permutation_app_tail, Permutation_app_comm.
      * eapply Forall_impl; [exact Hps|exact Hmono_p].
      * apply Forall_app; split.
        -- apply Forall_forall. intros x Hx. exists k, l.
           split; [left|auto].
        -- eapply Forall_impl; [exact Hss|exact Hmono_s].
Qed.

Lemma insert_newest_perm x l : insert_newest x l ≡ₚ x :: l.
Proof.
  induction l as [|y l IH]; simpl; [reflexivity|].
  destruct (item_created_at x <? item_created_at y)%Z; [|reflexivity].
  rewrite IH. apply perm_swap.
Qed.

Lemma sort_newest_first_perm l : sort_newest_first l ≡ₚ l.
Proof.
  induction l as [|x l IH]; simpl; [reflexivity|].
  rewrite insert_newest_perm, IH. reflexivity.
Qed.

Lemma insert_newest_sorted x l :
  newest_first l -> newest_first (insert_newest x l).
Proof.
  induction l as [|y l IH]; simpl; intros Hl.
  - split; auto. 
  - destruct Hl as [Hy Hl].
    destruct (Z.ltb_spec (item_created_at x) (item_created_at y)); simpl.
    + split; [|auto].
      rewrite insert_newest_perm. apply Forall_cons; split; [lia|exact Hy].
    + split; [|split; auto].
      apply Forall_cons; split; [lia|].
      eapply Forall_impl; [exact Hy|]. simpl. intros. lia.
Qed.

Lemma sort_newest_first_sorted l : newest_first (sort_newest_first l).
Proof.
  induction l as [|x l IH]; simpl; [exact I|].
  apply insert_newest_sorted, IH.
Qed.

Lemma newest_first_lookup l :
  newest_first l ->
  forall i j a b, i <= j -> l !! i = Some a -> l !! j = Some b ->
    (item_created_at b <= item_created_at a)%Z.
Proof.
  induction l as [|y l IH]; intros Hl i j a b Hij Ha Hb.
  - destruct i; discriminate.
  - destruct Hl as [Hy Hl].
    destruct i as [|i]; simpl in Ha.
    + injection Ha as <-.
      destruct j as [|j]; simpl in Hb.
      * injection Hb as <-. lia.
      * rewrite Forall_forall in Hy. apply Hy.
        eapply list_elem_of_lookup_2, Hb.
    + destruct j as [|j]; [lia|]. simpl in Hb.
      apply (IH Hl i j); auto. lia.
Qed.

Lemma number_items_spec items :
  forall total idx m,
    NoDup (item_key <$> items) ->
    (forall j it, items !! j = Some it ->
       number_items total idx items m !! item_key it
       = Some (total - (idx + j)))
    /\ (forall k, k ∉ item_key <$> items ->
          number_items total idx items m !! k = m !! k).
Proof.
  induction items as [|it0 items IH]; intros total idx m Hnd.
  - split; [intros j it Hj; destruct j; discriminate|reflexivity].
  - simpl in Hnd. apply NoDup_cons in Hnd as [Hnot Hnd].
    destruct (IH total (S idx) (<[item_key it0 := total - idx]> m) Hnd)
      as [Hin Hout].
    split.
    + intros [|j] it Hj; simpl in Hj |- *.
      * injection Hj as <-. rewrite Hout by exact Hnot.
        rewrite lookup_insert_eq. f_equal. lia.
      * rewrite (Hin j it Hj). f_equal. lia.
    + intros k Hk. simpl in Hk |- *.
      apply not_elem_of_cons in Hk as [Hne Hk].
      rewrite Hout by exact Hk.
      apply lookup_insert_ne. congruence.
Qed.

Lemma concat_fmap_perm {A B} (f : A -> list B) l l' :
  l ≡ₚ l' -> concat (f <$> l) ≡ₚ concat (f <$> l').
Proof.
  induction 1; simpl.
  - reflexivity.
  - rewrite IHPermutation. reflexivity.
  - rewrite !app_assoc. apply Permutation_app_tail, Permutation_app_comm.
  - etransitivity; eauto.
Qed.

Lemma concat_singles (l : list listed) :
  concat (item_images <$> (Single <$> l)) = l.
Proof. induction l as [|x l IH]; simpl; [reflexivity|]. f_equal. exact IH. Qed.

(** The pieces [dashboard] is made of, with what the two loops leave. *)
Lemma dashboard_structure (user_images : list listed) :
  exists d s pl s',
    dashboard user_images
    = (let unified :=
         sort_newest_first ((Paired <$> pl) ++ (Single <$> s ++ s')) in
       (unified, number_items (length unified) 0 unified ∅))
    /\ (forall k, dict_get d k
          = match grouped k user_images with [] => None | l => Some l end)
    /\ s = List.filter (fun x => negb (batched x)) user_images
    /\ NoDup d.*1
    /\ concat d.*2 ++ s ≡ₚ user_images
    /\ (p_batch_id <$> pl) `sublist_of` d.*1
    /\ concat (item_images ∘ Paired <$> pl) ++ s' ≡ₚ concat d.*2
    /\ Forall (pair_ok d) pl
    /\ Forall (leftover_ok d) s'.
Proof.
  pose proof (group_image_fold user_images) as Hg.
  unfold dashboard.
  destruct (fold_left group_image user_images ([], [])) as [d s].
  destruct Hg as (Hget & Hs & Hnd & Hperm).
  destruct (pair_up_fold d [] s) as (pl & s' & Hfold & Hsub & Hp & Hps & Hss).
  rewrite Hfold. simpl app.
  exists d, s, pl, s'. repeat split; auto.
Qed.

Lemma grouped_empty_key l : grouped "" l = [].
Proof.
  unfold grouped. induction l as [|x l IH]; simpl; [reflexivity|].
  unfold in_batch at 1.
  destruct (batch_id (l_image x)) as [[|c r]|]; simpl; exact IH.
Qed.

Lemma grouped_of_entry d (user_images : list listed) k l :
  (forall k, dict_get d k
     = match grouped k user_images with [] => None | l => Some l end) ->
  NoDup d.*1 -> (k, l) ∈ d -> grouped k user_images = l.
Proof.
  intros Hget Hnd Hin.
  pose proof (dict_get_elem d k l Hnd Hin) as H. rewrite Hget in H.
  destruct (grouped k user_images); [discriminate|]. congruence.
Qed.

Lemma grouped_elem b l x : x ∈ grouped b l -> x ∈ l /\ in_batch b x = true.
Proof.
  unfold grouped. rewrite list_elem_of_In, List.filter_In, <- list_elem_of_In.
  auto.
Qed.

Lemma unified_keys_NoDup (user_images : list listed) d s pl s' :
  NoDup (l_id <$> user_images) ->
  NoDup d.*1 ->
  concat d.*2 ++ s ≡ₚ user_images ->
  (p_batch_id <$> pl) `sublist_of` d.*1 ->
  concat (item_images ∘ Paired <$> pl) ++ s' ≡ₚ concat d.*2 ->
  NoDup (item_key <$> (Paired <$> pl) ++ (Single <$> s ++ s')).
Proof.
  intros Hids Hnd Hperm Hsub Hp.
  rewrite fmap_app, <- !list_fmap_compose.
  apply NoDup_app. split; [|split].
  - change (item_key ∘ Paired) with (inl (B := nat) ∘ p_batch_id).
    rewrite list_fmap_compose. apply NoDup_fmap_2; [apply _|].
    eapply sublist_NoDup; eauto.
  - intros k [p [-> _]]%list_elem_of_fmap [x [Hx _]]%list_elem_of_fmap.
    discriminate.
  - change (item_key ∘ Single) with (inr (A := string) ∘ l_id).
    rewrite list_fmap_compose. apply NoDup_fmap_2; [apply _|].
    assert (Hall : concat (item_images ∘ Paired <$> pl) ++ s' ++ s
                   ≡ₚ user_images).
    { rewrite app_assoc, Hp. exact Hperm. }
    rewrite <- Hall in Hids. rewrite fmap_app in Hids.
    apply NoDup_app in Hids as (_ & _ & Hids).
    rewrite (Permutation_app_comm s s'). exact Hids.
Qed.

(** X20. [dashboard] shows every image of the query exactly once: the
    images of the items, a pair contributing both of its own, are the
    images of the query up to order. *)
Theorem dashboard_shows_every_image_once (user_images : list listed) :
  concat (item_images <$> (dashboard user_images).1) ≡ₚ user_images.
Proof.
  destruct (dashboard_structure user_images)
    as (d & s & pl & s' & -> & _ & _ & _ & Hperm & _ & Hp & _ & _).
  cbv zeta. simpl fst.
  rewrite (concat_fmap_perm item_images _ _ (sort_newest_first_perm _)).
  rewrite fmap_app, concat_app, concat_singles, <- list_fmap_compose.
  rewrite (Permutation_app_comm s s'), app_assoc, Hp. exact Hperm.
Qed.

(** X21. [dashboard] lists the items newest first: an item is never newer
    than an item listed before it, a pair being dated by its first image. *)
Theorem dashboard_newest_first (user_images : list listed) :
  forall i j a b,
    i <= j ->
    (dashboard user_images).1 !! i = Some a ->
    (dashboard user_images).1 !! j = Some b ->
    (item_created_at b <= item_created_at a)%Z
    /\ match a with
       | Paired p => p_created_at p = l_created_at (p_image_1 p)
       | Single _ => True
       end.
Proof.
  intros i j a b Hij Ha Hb.
  destruct (dashboard_structure user_images)
    as (d & s & pl & s' & Hd & _ & _ & _ & _ & _ & _ & Hps & _).
  rewrite Hd in Ha, Hb. cbv zeta in Ha, Hb. simpl fst in Ha, Hb.
  split.
  - eapply (newest_first_lookup _ (sort_newest_first_sorted _) i j); eauto.
  - destruct a as [p|x]; [|exact I].
    apply list_elem_of_lookup_2 in Ha.
    rewrite sort_newest_first_perm in Ha.
    apply elem_of_app in Ha as [Ha|Ha].
    + apply list_elem_of_fmap in Ha as (p' & [= ->] & Hin).
      rewrite Forall_forall in Hps. apply (Hps p' Hin).
    + apply list_elem_of_fmap in Ha as (x & Hx & _). discriminate.
Qed.

Lemma dashboard_newest_first_witness :
  exists a b,
    (dashboard sample_listing).1 !! 0 = Some (Single a)
    /\ (dashboard sample_listing).1 !! 1 = Some (Paired b)
    /\ l_id a = 4
    /\ p_batch_id b = "7_20260101_120000"
    /\ (item_created_at (Paired b) <= item_created_at (Single a))%Z.
Proof.
  eexists _, _.
  split; [reflexivity|]. split; [reflexivity|].
  split; [reflexivity|]. split; [reflexivity|].
  refine (proj1 (dashboard_newest_first sample_listing 0 1 _ _ _ _ _));
    [lia | reflexivity | reflexivity].
Defined.

(** X22. What [dashboard] shows as a pair and what as a single image: a
    pair holds the two images of the query that carry its batch id, which
    is not empty, and the first is not behind the second in the order of
    [pipeline_type or ''];  a single image is an image of the query that
    has no batch id, or whose batch does not have exactly two images. *)
Theorem dashboard_pairs_batches_of_two (user_images : list listed) :
  (forall p, Paired p ∈ (dashboard user_images).1 ->
     p_batch_id p <> ""
     /\ grouped (p_batch_id p) user_images ≡ₚ [p_image_1 p; p_image_2 p]
     /\ str_lt (pipeline_key (p_image_2 p)) (pipeline_key (p_image_1 p))
        = false)
  /\ (forall x, Single x ∈ (dashboard user_images).1 ->
        x ∈ user_images
        /\ (batched x = false
            \/ exists b, in_batch b x = true
                 /\ length (grouped b user_images) <> 2)).
Proof.
  destruct (dashboard_structure user_images)
    as (d & s & pl & s' & -> & Hget & Hs & Hnd & Hperm & _ & _ & Hps & Hss).
  cbv zeta. simpl fst.
  rewrite Forall_forall in Hps. rewrite Forall_forall in Hss.
  split.
  - intros p Hp. rewrite sort_newest_first_perm in Hp.
    apply elem_of_app in Hp as [Hp|Hp].
    2:{ apply list_elem_of_fmap in Hp as (x & Hx & _). discriminate. }
    apply list_elem_of_fmap in Hp as (p' & [= <-] & Hin).
    destruct (Hps p Hin) as ((a & b & Hab & Hpab) & Hlt & _).
    pose proof (grouped_of_entry d user_images _ _ Hget Hnd Hab) as Hg.
    repeat split; auto.
    + intros He. rewrite He, grouped_empty_key in Hg. discriminate.
    + rewrite Hg. symmetry. exact Hpab.
  - intros x Hx. rewrite sort_newest_first_perm in Hx.
    apply elem_of_app in Hx as [Hx|Hx].
    { apply list_elem_of_fmap in Hx as (p & Hp & _). discriminate. }
    apply list_elem_of_fmap in Hx as (x' & [= <-] & Hin).
    apply elem_of_app in Hin as [Hin|Hin].
    + subst s. apply list_elem_of_In, List.filter_In in Hin as [Hin Hb].
      split; [apply list_elem_of_In, Hin|].
      left. destruct (batched x); [discriminate|reflexivity].
    + destruct (Hss x Hin) as (k & l & Hkl & Hxl & Hlen).
      pose proof (grouped_of_entry d user_images _ _ Hget Hnd Hkl) as Hg.
      rewrite <- Hg in Hxl, Hlen.
      apply grouped_elem in Hxl as [Hxu Hxb].
      split; [exact Hxu|]. right. exists k. auto.
Qed.

(** X23. The sequence numbers of [dashboard]: where the ids of the images
    are distinct, the item at position [idx] of the list has the number
    [total - idx] under its key, so the numbers run from the number of
    items down to one, and the map has no other key. *)
Theorem dashboard_sequence_numbers (user_images : list listed)
    (Hids : NoDup (l_id <$> user_images)) :
  let '(unified_items, sequence_map) := dashboard user_images in
  (forall idx it, unified_items !! idx = Some it ->
     sequence_map !! item_key it = Some (length unified_items - idx)
     /\ 1 <= length unified_items - idx <= length unified_items)
  /\ (forall k, is_Some (sequence_map !! k)
        <-> k ∈ item_key <$> unified_items).
Proof.
  destruct (dashboard_structure user_images)
    as (d & s & pl & s' & -> & _ & _ & Hnd & Hperm & Hsub & Hp & _ & _).
  cbv zeta.
  pose proof (unified_keys_NoDup user_images d s pl s' Hids Hnd Hperm Hsub Hp)
    as Hkeys.
  set (items := (Paired <$> pl) ++ (Single <$> s ++ s')) in *.
  assert (Hkeys' : NoDup (item_key <$> sort_newest_first items)).
  { rewrite sort_newest_first_perm. exact Hkeys. }
  destruct (number_items_spec (sort_newest_first items)
              (length (sort_newest_first items)) 0 ∅ Hkeys') as [Hin Hout].
  split.
  - intros idx it Hit. split.
    + rewrite (Hin idx it Hit). reflexivity.
    + apply lookup_lt_Some in Hit. lia.
  - intros k. split.
    + intros Hk.
      destruct (decide (k ∈ item_key <$> sort_newest_first items)) as [|Hno];
        [assumption|].
      rewrite (Hout k Hno), lookup_empty in Hk. destruct Hk; discriminate.
    + intros Hk. apply list_elem_of_fmap in Hk as (it & -> & Hit).
      apply list_elem_of_lookup_1 in Hit as [idx Hit].
      rewrite (Hin idx it Hit). eauto.
Qed.

Lemma dashboard_sequence_numbers_witness :
  let '(unified_items, sequence_map) := dashboard sample_listing in
  sequence_map !! (inr 4 : string + nat) = Some 3
  /\ sequence_map !! (inl "7_20260101_120000" : string + nat) = Some 2
  /\ sequence_map !! (inr 1 : string + nat) = Some 1
  /\ sequence_map !! (inr 2 : string + nat) = None.
Proof.
  assert (Hids : NoDup (l_id <$> sample_listing)).
  { apply (bool_decide_unpack _). reflexivity. }
  pose proof (dashboard_sequence_numbers sample_listing Hids) as H.
  destruct (dashboard sample_listing) as [unified_items sequence_map] eqn:Hd.
  destruct H as [Hnum Hkeys].
  assert (Hu : unified_items = (dashboard sample_listing).1)
    by (rewrite Hd; reflexivity).
  assert (Hitems : exists a p c,
            unified_items = [Single a; Paired p; Single c]
            /\ l_id a = 4 /\ p_batch_id p = "7_20260101_120000" /\ l_id c = 1).
  { rewrite Hu. eexists _, _, _. split; [reflexivity|]. repeat split. }
  destruct Hitems as (a & p & c & -> & Ha & Hp & Hc).
  pose proof (Hnum 0 _ eq_refl) as [H0 _].
  pose proof (Hnum 1 _ eq_refl) as [H1 _].
  pose proof (Hnum 2 _ eq_refl) as [H2 _].
  simpl in H0, H1, H2. rewrite Ha in H0. rewrite Hp in H1. rewrite Hc in H2.
  split; [exact H0|]. split; [exact H1|]. split; [exact H2|].
  destruct (sequence_map !! inr 2) eqn:Hl; [|reflexivity].
  exfalso. assert (Hs : is_Some (sequence_map !! inr 2)) by eauto.
  apply Hkeys in Hs. simpl in Hs. rewrite Ha, Hp, Hc in Hs.
  rewrite !elem_of_cons, elem_of_nil in Hs.
  destruct Hs as [Hs | [Hs | [Hs | []]]]; discriminate Hs.
Defined.
